(** * safe-wallet-web: UI orchestration of the Safe wallet front-end

    A shallow embedding of the components

      - [TxDataRow.generateDataRowValue]   (value formatter),
      - [AddressBookInput]                 (address input with autocomplete),
      - [Navigation.getRoute]              (sidebar navigation),
      - [ReviewOwner]                      (owner-change review step),
      - [SignForm]                         (transaction sign form),
      - [SocialWalletService]              (social login orchestration, driven
                                            by the [MockMPCCoreKit] of its test),

    followed by the properties of these components.  React components are
    embedded as a state record, a pure [render] function from props, hook
    values and state to a view record, and handlers acting on the state. *)

From stdpp Require Import gmap strings list fin_maps.
From Stdlib Require Import Ascii String ZArith Lia.

Open Scope string_scope.

(* ===================================================================== *)
(** * JavaScript values used by the components *)
(* ===================================================================== *)

Module JS.

(** [hay.includes(needle)] on strings: [needle] occurs in [hay] as a
    contiguous, case-sensitive substring. *)
Fixpoint includes (hay needle : string) : bool :=
  String.prefix needle hay ||
  match hay with
  | EmptyString => false
  | String _ hay' => includes hay' needle
  end.

(** [String.prototype.includes] converts its argument to a string first; an
    [undefined] argument is searched for as the text "undefined". *)
Definition includes_arg (hay : string) (needle : option string) : bool :=
  includes hay (default "undefined" needle).

(** Truthiness of a string: every string but the empty one. *)
Definition truthy_string (s : string) : bool :=
  match s with
  | EmptyString => false
  | String _ _ => true
  end.

(** Truthiness of an optional string ([undefined] is falsy). *)
Definition truthy_opt_string (s : option string) : bool :=
  match s with
  | None => false
  | Some s => truthy_string s
  end.

(** Truthiness of an optional boolean prop. *)
Definition truthy_opt_bool (b : option bool) : bool := default false b.

(** [Boolean(n)] for a number that is a length. *)
Definition Boolean_nat (n : nat) : bool := negb (n =? 0)%nat.

(** ASCII part of [toLowerCase]: bytes 'A'..'Z' are moved to 'a'..'z', every
    other byte is kept. *)
Definition lower_ascii (c : ascii) : ascii :=
  let n := nat_of_ascii c in
  if ((65 <=? n) && (n <=? 90))%nat then ascii_of_nat (n + 32) else c.

Fixpoint toLowerCase (s : string) : string :=
  match s with
  | EmptyString => EmptyString
  | String c s' => String (lower_ascii c) (toLowerCase s')
  end.

(** [s.split(sep)] for a one-character separator: the pieces between the
    separators, in order; a string without separator is its only piece. *)
Fixpoint split (sep : ascii) (s : string) : list string :=
  match s with
  | EmptyString => [EmptyString]
  | String c s' =>
    if Ascii.eqb c sep then EmptyString :: split sep s'
    else match split sep s' with
         | piece :: pieces => String c piece :: pieces
         | [] => [String c EmptyString]
         end
  end.

End JS.

(* ===================================================================== *)
(** * ethers/lib/utils *)
(* ===================================================================== *)

Module Ethers.

(** The character class [0-9A-Fa-f]. *)
Definition is_hex_digit (c : ascii) : bool :=
  let n := nat_of_ascii c in
  ((48 <=? n) && (n <=? 57) || (65 <=? n) && (n <=? 70) ||
   (97 <=? n) && (n <=? 102))%nat.

Fixpoint all_hex_digits (s : string) : bool :=
  match s with
  | EmptyString => true
  | String c s' => is_hex_digit c && all_hex_digits s'
  end.

(** Modelled from the spec: [isHexString] belongs to the dependency
    ethers/lib/utils, whose code is not part of the repository.  In the
    library (ethers v5) a string is hex data when it matches
    /^0x[0-9A-Fa-f]*$/. *)
Definition isHexString (value : string) : bool :=
  match value with
  | String "0" (String "x" digits) => all_hex_digits digits
  | _ => false
  end.

(** Modelled from the spec: [hexDataLength] is imported from the dependency
    ethers/lib/utils, whose code is not part of the repository.  The spec
    gives the byte length as computed from the hex string length; the
    library (ethers v5) returns [(length - 2) / 2] for hex data of even
    length and [null] for any other string. *)
Definition hexDataLength (data : string) : option nat :=
  if negb (isHexString data) || negb (String.length data mod 2 =? 0)%nat
  then None
  else Some ((String.length data - 2) / 2)%nat.

End Ethers.

(* ===================================================================== *)
(** * TxDataRow: value formatter *)
(* ===================================================================== *)

Module TxDataRow.

Inductive DataRowType := hash | rawData | address | bytes.

(** [AddressEx] of the gateway SDK: the fields the formatter reads. *)
Record AddressEx := {
  value : string;
  name : option string;
  logoUri : option string;
}.

(** The rendered fragment, one constructor per JSX element returned. *)
Inductive Element :=
| EthHashInfo (address : string) (name customAvatar : option string)
    (showAvatar : bool) (hasExplorer : option bool) (showCopyButton : bool)
    (** [<div>{count} bytes</div><CopyButton text=.. />]; a [null] count
        renders no number *)
| RawDataBytes (count : option nat) (copyText : string)
| HexEncodedData (limit : nat) (hexData : string)
| Typography (text : string).

Definition generateDataRowValue (value : option string)
    (type : option DataRowType) (hasExplorer : option bool)
    (addressInfo : option AddressEx) : option Element :=
  match value with
  | None => None
  | Some value =>
    match type with
    | Some hash | Some address =>
      let customAvatar := addressInfo ≫= logoUri in
      Some (EthHashInfo value (addressInfo ≫= name) customAvatar
              (JS.truthy_opt_string customAvatar) hasExplorer true)
    | Some rawData =>
      Some (RawDataBytes
              (if JS.truthy_string value then Ethers.hexDataLength value
               else Some 0%nat)
              value)
    | Some bytes => Some (HexEncodedData 60 value)
    | None => Some (Typography value)
    end
  end.

(** The number shown in front of "bytes" by a rendered fragment. *)
Definition displayedByteCount (e : option Element) : option nat :=
  match e with
  | Some (RawDataBytes count _) => count
  | _ => None
  end.


(** A [ReactNode] given as title or children: a string or an element. *)
Inductive Node :=
| TextNode (text : string)
| ElementNode (e : Element).

(** The second cell of a rendered row: string children are wrapped in a
    [Typography] div, any other child is rendered as it is. *)
Inductive RowBody :=
| TypographyDiv (text : string)
| Child (e : Element).

Record Row := { rowTitle : Node; rowBody : RowBody }.

(** [TxDataRow]: no row for absent children ([children == undefined] holds
    for [undefined] and for [null]). *)
Definition TxDataRow (title : Node) (children : option Node) : option Row :=
  match children with
  | None => None
  | Some (TextNode text) =>
    Some {| rowTitle := title; rowBody := TypographyDiv text |}
  | Some (ElementNode e) => Some {| rowTitle := title; rowBody := Child e |}
  end.

(** [<TxDataRow title=..>{generateDataRowValue(..)}</TxDataRow>]. *)
Definition dataRow (title : Node) (value : option string)
    (type : option DataRowType) (hasExplorer : option bool)
    (addressInfo : option AddressEx) : option Row :=
  TxDataRow title
    (ElementNode <$> generateDataRowValue value type hasExplorer addressInfo).

(** The text an element was rendered from: the address, the copied text,
    the hex data or the verbatim text. *)
Definition elementValue (e : Element) : string :=
  match e with
  | EthHashInfo addr _ _ _ _ _ => addr
  | RawDataBytes _ copyText => copyText
  | HexEncodedData _ hexData => hexData
  | Typography text => text
  end.
End TxDataRow.

(* ===================================================================== *)
(** * @mui/material Autocomplete *)
(* ===================================================================== *)

Module MUI.

(** Modelled from the spec: [createFilterOptions] is imported from the
    dependency @mui/material, whose code is not part of the repository.  The
    spec describes the filter as a substring match of the typed value against
    the stringified option, under the case rules as configured.  [normalize]
    stands for those rules (the library's defaults lower-case both sides and
    strip diacritics); an input that is empty once normalised keeps every
    option, and the options keep their order. *)
Definition createFilterOptions {A : Type} (normalize : string -> string)
    (stringify : A -> string) (options : list A) (inputValue : string)
    : list A :=
  let input := normalize inputValue in
  if negb (JS.truthy_string input) then options
  else List.filter
         (fun option => JS.includes (normalize (stringify option)) input)
         options.

End MUI.

(* ===================================================================== *)
(** * AddressBookInput: address input with autocomplete *)
(* ===================================================================== *)

Module AddressBookInput.

(** An autocomplete option: [label] is the address, [name] its display
    name. *)
Record Entry := { label : string; name : string }.

(** The component's own state: the two [useState] cells. *)
Record State := { open : bool; openAddressBook : bool }.

Definition initialState : State := {| open := false; openAddressBook := false |}.

(** The props read by the component ([canAdd] is optional). *)
Record Props := { fieldName : string; canAdd : option bool }.

(** The closures handed to the children: [onOpen] and [onClose] of the
    autocomplete, the toggle of the open-list button, the opener of the
    entry dialog and the dialog's [handleClose]. *)
Inductive Handler :=
| onOpen
| onClose
| handleOpenAutocomplete
| setOpenAddressBookTrue
| handleClose.

Definition runHandler (h : Handler) (st : State) : State :=
  match h with
  | onOpen => {| open := true; openAddressBook := openAddressBook st |}
  | onClose => {| open := false; openAddressBook := openAddressBook st |}
  | handleOpenAutocomplete =>
    {| open := negb (open st); openAddressBook := openAddressBook st |}
  | setOpenAddressBookTrue =>
    {| open := open st; openAddressBook := true |}
  | handleClose => {| open := open st; openAddressBook := false |}
  end.

(** [onClick={h}] with an optional handler: nothing happens without one. *)
Definition click (h : option Handler) (st : State) : State :=
  match h with
  | Some h => runHandler h st
  | None => st
  end.

(** [defaultValues] of the entry dialog. *)
Record EntryDialogValues := {
  dialogName : string;
  dialogAddress : option string;
}.

(** What a render produces: the props given to [Autocomplete] and
    [AddressInput], the "unknown address" note (rendered or not, with the
    [onClick] of its link) and the entry dialog (rendered or not).
    [addressValue] is the watched value of the form field, which
    [onInputChange] sets to the text typed in the input. *)
Record View := {
  autocompleteOpen : bool;
  autocompleteValue : string;
  options : list Entry;
  onOpenListClick : option Handler;
  onAddressBookClick : option Handler;
  unknownAddress : option (option Handler);
  entryDialog : option EntryDialogValues;
}.

(** [stringify] of [abFilterOptions]. *)
Definition stringify (option : Entry) : string :=
  name option ++ " " ++ label option.

Definition abFilterOptions (normalize : string -> string)
    : list Entry -> string -> list Entry :=
  MUI.createFilterOptions normalize stringify.

(** [Object.entries(addressBook).map(([address, name]) => ...)].  The address
    book is a finite map from address to name; the entries are listed in the
    order of [map_to_list]. *)
Definition addressBookEntries (addressBook : gmap string string) : list Entry :=
  (fun '(address, name) => {| label := address; name := name |})
    <$> map_to_list addressBook.

Definition hasVisibleOptions (addressBookEntries : list Entry)
    (addressValue : option string) : bool :=
  negb (List.length
          (List.filter (fun entry => JS.includes_arg (label entry) addressValue)
             addressBookEntries) =? 0)%nat.

Definition render (props : Props) (addressBook : gmap string string)
    (addressValue : option string) (st : State) : View :=
  let addressBookEntries := addressBookEntries addressBook in
  let hasVisibleOptions := hasVisibleOptions addressBookEntries addressValue in
  let onAddressBookClick :=
    if JS.truthy_opt_bool (canAdd props) then Some setOpenAddressBookTrue
    else None in
  {| autocompleteOpen := open st;
     autocompleteValue :=
       if JS.truthy_opt_string addressValue then default "" addressValue
       else "";
     options := addressBookEntries;
     onOpenListClick :=
       if hasVisibleOptions then Some handleOpenAutocomplete else None;
     onAddressBookClick := onAddressBookClick;
     unknownAddress :=
       if JS.truthy_opt_bool (canAdd props) then Some onAddressBookClick
       else None;
     entryDialog :=
       if openAddressBook st
       then Some {| dialogName := ""; dialogAddress := addressValue |}
       else None |}.

(** The suggestions the autocomplete lists for the text in the input: its
    [filterOptions] applied to its [options]. *)
Definition suggestions (normalize : string -> string)
    (addressBook : gmap string string) (inputValue : string) : list Entry :=
  abFilterOptions normalize (addressBookEntries addressBook) inputValue.


#[global] Instance Handler_eq_dec : EqDecision Handler.
Proof. solve_decision. Defined.

(** The handlers a rendered view hands to its children: [onOpen] and
    [onClose] of the autocomplete, the open-list click and the address-book
    click of the input (when defined), the link of the "unknown address"
    note (when rendered with a handler) and [handleClose] of the entry
    dialog (when rendered). *)
Definition offered (view : View) : list Handler :=
  ([onOpen; onClose]
   ++ option_list (onOpenListClick view)
   ++ option_list (onAddressBookClick view)
   ++ match unknownAddress view with
      | Some (Some h) => [h]
      | _ => []
      end
   ++ match entryDialog view with
      | Some _ => [handleClose]
      | None => []
      end)%list.

(** One interaction with the rendered component: the address book and the
    field value at that moment and the handler the user triggers.  A handler
    the view does not offer cannot be triggered. *)
Record Interaction := {
  atAddressBook : gmap string string;
  atAddressValue : option string;
  triggered : Handler;
}.

Definition interact (props : Props) (i : Interaction) (st : State) : State :=
  if bool_decide
       (triggered i
        ∈ offered (render props (atAddressBook i) (atAddressValue i) st))
  then runHandler (triggered i) st
  else st.

Definition interactAll (props : Props) (steps : list Interaction)
    (st : State) : State :=
  foldl (fun st i => interact props i st) st steps.
End AddressBookInput.

(* ===================================================================== *)
(** * Navigation: sidebar navigation *)
(* ===================================================================== *)

Module Navigation.

(** [AppRoutes.transactions] of the routes table: the two routes read by
    [getRoute].  The table lives in the routes config; its values are
    parameters here. *)
Record TransactionRoutes := { history : string; queue : string }.

(** A navigation item of the config table; [icon] is the item's icon
    element, named here, when the item has one. *)
Record NavItem := {
  label : string;
  href : string;
  icon : option string;
  badge : bool;
}.

(** [Boolean(useTxQueue().page?.results.length)]: the page may be absent. *)
Definition hasQueuedTxs {Tx : Type} (page : option (list Tx)) : bool :=
  match page with
  | Some results => JS.Boolean_nat (List.length results)
  | None => false
  end.

(** [Boolean(useRecoveryQueue().length)]. *)
Definition hasRecoveryTxs {R : Type} (recoveryQueue : list R) : bool :=
  JS.Boolean_nat (List.length recoveryQueue).

Definition getRoute (routes : TransactionRoutes)
    (hasQueuedTxs hasRecoveryTxs : bool) (href : string) : string :=
  if (href =? history routes)%string && (hasQueuedTxs || hasRecoveryTxs)
  then queue routes
  else href.

(** The [pathname] of the link rendered for each item, in order. *)
Definition linkTargets {Tx R : Type} (routes : TransactionRoutes)
    (page : option (list Tx)) (recoveryQueue : list R)
    (navItems : list NavItem) : list string :=
  (fun item =>
     getRoute routes (hasQueuedTxs page) (hasRecoveryTxs recoveryQueue)
       (href item)) <$> navItems.


(** [pathname.split('/')[1]]: [undefined] when the path has no '/'. *)
Definition getSubdirectory (pathname : string) : option string :=
  JS.split "/" pathname !! 1%nat.

(** [ImplementationVersionState] of the gateway SDK. *)
Inductive ImplementationVersionState := UP_TO_DATE | OUTDATED | UNKNOWN.

#[global] Instance ImplementationVersionState_eq_dec :
  EqDecision ImplementationVersionState.
Proof. solve_decision. Defined.

(** [navItems.find((item) => item.href === setup)] followed by the
    assignment [setupItem.badge = b]: the first item with that href is
    updated in place in the shared table, every other item is left. *)
Fixpoint setSetupBadge (setup : string) (b : bool) (navItems : list NavItem)
    : list NavItem :=
  match navItems with
  | [] => []
  | item :: rest =>
    if (href item =? setup)%string
    then {| label := label item; href := href item; icon := icon item;
            badge := b |} :: rest
    else item :: setSetupBadge setup b rest
  end.

(** Indicate whether the current Safe needs an upgrade. *)
Definition updateBadge (setup : string) (state : ImplementationVersionState)
    (navItems : list NavItem) : list NavItem :=
  setSetupBadge setup (bool_decide (state = OUTDATED)) navItems.

(** [currentSubdirectory === getSubdirectory(item.href)]. *)
Definition isSelected (pathname : string) (item : NavItem) : bool :=
  bool_decide (getSubdirectory pathname = getSubdirectory (href item)).

(** [<SidebarListItemIcon badge={item.badge}>{item.icon}</..>]. *)
Record RenderedIcon := { iconBadge : bool; iconElement : string }.

(** One rendered list item: its React key, whether it is selected, the
    pathname of its link, its icon with the item's badge ([item.icon &&
    ...]: rendered only for an item that has an icon) and its label. *)
Record RenderedItem := {
  key : string;
  selected : bool;
  pathname : string;
  itemIcon : option RenderedIcon;
  itemLabel : string;
}.

(** Whether a rendered item shows a badge: it has an icon and the icon was
    given a true badge. *)
Definition showsBadge (rendered : RenderedItem) : bool :=
  match itemIcon rendered with
  | Some shown => iconBadge shown
  | None => false
  end.

(** A render of [Navigation]: the navigation table after the badge update
    and the list items rendered from it. *)
Definition render {Tx R : Type} (routes : TransactionRoutes) (setup : string)
    (currentPathname : string) (state : ImplementationVersionState)
    (page : option (list Tx)) (recoveryQueue : list R)
    (navItems : list NavItem) : list NavItem * list RenderedItem :=
  let navItems := updateBadge setup state navItems in
  (navItems,
   (fun item =>
      {| key := href item;
         selected := isSelected currentPathname item;
         pathname :=
           getRoute routes (hasQueuedTxs page) (hasRecoveryTxs recoveryQueue)
             (href item);
         itemIcon :=
           (fun element =>
              {| iconBadge := badge item; iconElement := element |})
             <$> icon item;
         itemLabel := label item |}) <$> navItems).
End Navigation.

(* ===================================================================== *)
(** * ReviewOwner: owner-change review step *)
(* ===================================================================== *)

Module ReviewOwner.

Record Owner := { address : string; name : option string }.

(** [AddOwnerFlowProps | ReplaceOwnerFlowProps]: the add flow has no
    [removedOwner]. *)
Record Params := {
  newOwner : Owner;
  removedOwner : option Owner;
  threshold : nat;
}.

#[global] Instance Owner_eq_dec : EqDecision Owner.
Proof. solve_decision. Defined.

(** The argument objects of the two builders. *)
Record SwapOwnerArgs := { newOwnerAddress : string; oldOwnerAddress : string }.
Record AddOwnerArgs := { ownerAddress : string; ownerThreshold : nat }.

(** A call made to the tx-sender service. *)
Inductive Call :=
| CreateSwapOwnerTx (args : SwapOwnerArgs)
| CreateAddOwnerTx (args : AddOwnerArgs).

Section Flow.

(** The pending transaction and the build error are opaque to the
    component. *)
Context {SafeTransaction Error : Type}.

(** The tx-sender service: each builder is asynchronous and settles with a
    transaction ([inr]) or a rejection ([inl]). *)
Record TxSender := {
  createSwapOwnerTx : SwapOwnerArgs -> Error + SafeTransaction;
  createAddOwnerTx : AddOwnerArgs -> Error + SafeTransaction;
}.

(** [SafeTxContext]: the shared pending transaction and the shared error. *)
Record SafeTxContext := {
  safeTx : option SafeTransaction;
  safeTxError : option Error;
}.

Definition setSafeTx (tx : SafeTransaction) (ctx : SafeTxContext)
    : SafeTxContext :=
  {| safeTx := Some tx; safeTxError := safeTxError ctx |}.

Definition setSafeTxError (e : Error) (ctx : SafeTxContext) : SafeTxContext :=
  {| safeTx := safeTx ctx; safeTxError := Some e |}.

(** The promise built by the effect: the call made and how it settles. *)
Definition buildTx (sender : TxSender) (params : Params)
    : Call * (Error + SafeTransaction) :=
  match removedOwner params with
  | Some removedOwner =>
    let args := {| newOwnerAddress := address (newOwner params);
                   oldOwnerAddress := address removedOwner |} in
    (CreateSwapOwnerTx args, createSwapOwnerTx sender args)
  | None =>
    let args := {| ownerAddress := address (newOwner params);
                   ownerThreshold := threshold params |} in
    (CreateAddOwnerTx args, createAddOwnerTx sender args)
  end.

(** [promise.then(setSafeTx).catch(setSafeTxError)]. *)
Definition settle (promise : Error + SafeTransaction) (ctx : SafeTxContext)
    : SafeTxContext :=
  match promise with
  | inr tx => setSafeTx tx ctx
  | inl e => setSafeTxError e ctx
  end.

(** The body of the [useEffect]: the calls made and the context once the
    promise has settled. *)
Definition effect (sender : TxSender) (params : Params) (ctx : SafeTxContext)
    : list Call * SafeTxContext :=
  let '(call, promise) := buildTx sender params in
  ([call], settle promise ctx).

(** The dependency array [removedOwner, newOwner, threshold] (the two
    setters are stable).  Dependencies are compared by value here; React
    compares objects by identity, which differs whenever the values do. *)
Definition deps (params : Params) : option Owner * Owner * nat :=
  (removedOwner params, newOwner params, threshold params).

(** A render commits its effect on mount ([prev = None]) and whenever a
    dependency differs from the previous render's. *)
Definition effectRuns (prev : option Params) (params : Params) : bool :=
  match prev with
  | None => true
  | Some prev => negb (bool_decide (deps prev = deps params))
  end.

Definition commit (sender : TxSender) (prev : option Params) (params : Params)
    (ctx : SafeTxContext) : list Call * SafeTxContext :=
  if effectRuns prev params then effect sender params ctx else ([], ctx).

End Flow.

Arguments TxSender : clear implicits.
Arguments SafeTxContext : clear implicits.


(** What the component reads of the Safe: chain, current threshold and
    current owners. *)
Record SafeInfo := {
  chainId : string;
  safeThreshold : nat;
  owners : list string;
}.

(** [TX_TYPES] labels used by the component. *)
Inductive TxType := owner_swap | owner_add.

(** What [addAddressBookEntryAndSubmit] does, in order: the store action
    dispatched and the analytics events tracked. *)
Inductive SubmitAction :=
| UpsertAddressBookEntry (chainId address name : string)
| TrackSetupThreshold (label : nat)
| TrackSetupOwners (label : nat)
| TrackCreate (label : TxType).

Definition addAddressBookEntryAndSubmit (safe : SafeInfo) (params : Params)
    : list SubmitAction :=
  (match name (newOwner params) with
   | Some ownerName =>
     [UpsertAddressBookEntry (chainId safe) (address (newOwner params))
        ownerName]
   | None => []
   end
   ++ [ TrackSetupThreshold (safeThreshold safe);
        TrackSetupOwners (List.length (owners safe));
        TrackCreate
          (if bool_decide (is_Some (removedOwner params)) then owner_swap
           else owner_add) ])%list.

(** What the review shows: the previous-owner panel (when an owner is
    removed), the owner list with the new owner, and the confirmation
    line "threshold out of count owners". *)
Record ReviewView := {
  previousOwner : option Owner;
  ownerList : list Owner;
  shownThreshold : nat;
  shownOwnerCount : nat;
}.

Definition review (safe : SafeInfo) (params : Params) : ReviewView :=
  {| previousOwner := removedOwner params;
     ownerList := [newOwner params];
     shownThreshold := threshold params;
     shownOwnerCount :=
       (List.length (owners safe)
        + (if bool_decide (is_Some (removedOwner params)) then 0 else 1))%nat |}.
End ReviewOwner.

(* ===================================================================== *)
(** * SignForm: transaction sign form *)
(* ===================================================================== *)

Module SignForm.

(** A JavaScript [Error], as far as the form reads it. *)
Record Error := { message : string }.

(** The error categories of the exceptions service used here. *)
Inductive ErrorCode := _804.

Section Component.

Context {SafeTransaction : Type}.

Record Props := {
  safeTx : option SafeTransaction;
  txId : option string;
  disableSubmit : bool;
  origin : option string;
}.

(** Form state: the two [useState] cells. *)
Record State := { isSubmittable : bool; submitError : option Error }.

Definition initialState : State :=
  {| isSubmittable := true; submitError := None |}.

(** What the hooks give the component: [useIsSafeOwner] and the [signTx]
    of [useTxActions], an asynchronous action that resolves ([inr]) or
    rejects ([inl]). *)
Record Hooks := {
  isOwner : bool;
  signTx : option SafeTransaction -> option string -> option string
           -> Error + unit;
}.

(** What the handler does to the world outside the form state, and the
    updates it makes to that state, in order. *)
Inductive Event :=
| PreventDefault
| SetIsSubmittable (b : bool)
| SetSubmitError (e : option Error)
| SignTx (safeTx : option SafeTransaction) (txId origin : option string)
| SetTxFlowUndefined
| LogError (code : ErrorCode) (msg : string)
| OnSubmit.

(** Handlers run in a state-and-log monad: the form state is threaded and
    every step is appended to the log. *)
Definition Action (A : Type) : Type := State -> A * State * list Event.

Definition ret {A} (a : A) : Action A := fun st => (a, st, []).

Definition bind {A B} (m : Action A) (k : A -> Action B) : Action B :=
  fun st =>
    let '(a, st1, log1) := m st in
    let '(b, st2, log2) := k a st1 in
    (b, st2, (log1 ++ log2)%list).

Definition emit (e : Event) : Action unit := fun st => (tt, st, [e]).

Definition setIsSubmittable (b : bool) : Action unit :=
  fun st =>
    (tt, {| isSubmittable := b; submitError := submitError st |},
     [SetIsSubmittable b]).

Definition setSubmitError (e : option Error) : Action unit :=
  fun st =>
    (tt, {| isSubmittable := isSubmittable st; submitError := e |},
     [SetSubmitError e]).

(** [await signTx(safeTx, txId, origin)]: the call is logged and its
    outcome returned. *)
Definition awaitSignTx (hooks : Hooks) (tx : option SafeTransaction)
    (id orig : option string) : Action (Error + unit) :=
  fun st => (signTx hooks tx id orig, st, [SignTx tx id orig]).

End Component.

Arguments Props : clear implicits.
Arguments Hooks : clear implicits.
Arguments Event : clear implicits.
Arguments Action : clear implicits.

Declare Scope action_scope.
Delimit Scope action_scope with action.
Notation "x <- m ;; k" := (bind m (fun x => k))
  (at level 100, m at next level, right associativity) : action_scope.
Notation "m ;; k" := (bind m (fun _ => k))
  (at level 100, right associativity) : action_scope.

Section Form.

Context {SafeTransaction : Type}.

(** On modal submit. *)
Definition handleSubmit (hooks : Hooks SafeTransaction)
    (props : Props SafeTransaction) : Action SafeTransaction unit :=
  (emit PreventDefault ;;
   setIsSubmittable false ;;
   setSubmitError None ;;
   outcome <- awaitSignTx hooks (safeTx props) (txId props) (origin props) ;;
   match outcome with
   | inr _ =>
     emit SetTxFlowUndefined ;;
     emit OnSubmit
   | inl err =>
     emit (LogError _804 (message err)) ;;
     setIsSubmittable true ;;
     setSubmitError (Some err)
   end)%action.

Definition cannotPropose (hooks : Hooks SafeTransaction) : bool :=
  negb (isOwner hooks).

Definition submitDisabled (hooks : Hooks SafeTransaction)
    (props : Props SafeTransaction) (st : State) : bool :=
  negb (bool_decide (is_Some (safeTx props))) || negb (isSubmittable st)
  || disableSubmit props || cannotPropose hooks.

(** The two error messages the form can show. *)
Inductive Message :=
| NotAnOwner
| ErrorSubmitting (error : Error).

Record View := {
  errorMessage : option Message;
  submitButtonDisabled : bool;
}.

(** [isOk] is the value [CheckWallet] passes to its render prop. *)
Definition render (hooks : Hooks SafeTransaction)
    (props : Props SafeTransaction) (isOk : bool) (st : State) : View :=
  {| errorMessage :=
       if isSubmittable st && cannotPropose hooks then Some NotAnOwner
       else ErrorSubmitting <$> submitError st;
     submitButtonDisabled := negb isOk || submitDisabled hooks props st |}.

(** A click on the rendered submit button.  The browser submits a form
    from its submit button only when the button is not disabled; a disabled
    button fires nothing, and the form state and the log stay as they
    are. *)
Definition clickSubmit (hooks : Hooks SafeTransaction)
    (props : Props SafeTransaction) (isOk : bool)
    : Action SafeTransaction unit :=
  fun st =>
    if submitButtonDisabled (render hooks props isOk st) then (tt, st, [])
    else handleSubmit hooks props st.

End Form.

(** What every submission does before the signing action settles. *)
Definition submissionStart {SafeTransaction} (props : Props SafeTransaction)
    : list (Event SafeTransaction) :=
  [ PreventDefault; SetIsSubmittable false; SetSubmitError None;
    SignTx (safeTx props) (txId props) (origin props) ].

(** The log of an action run from a state, and the state it ends in. *)
Definition logOf {SafeTransaction A} (r : A * State * list (Event SafeTransaction))
    : list (Event SafeTransaction) := r.2.

Definition stateOf {SafeTransaction A}
    (r : A * State * list (Event SafeTransaction)) : State := r.1.2.

(** [n] clicks on the submit button, one after the other, each on the
    form as the previous one left it. *)
Fixpoint clickSubmitTimes {SafeTransaction} (hooks : Hooks SafeTransaction)
    (props : Props SafeTransaction) (isOk : bool) (n : nat)
    : Action SafeTransaction unit :=
  match n with
  | O => ret tt
  | S n =>
    bind (clickSubmit hooks props isOk)
      (fun _ => clickSubmitTimes hooks props isOk n)
  end.

(** The number of calls of the signing action in a log. *)
Fixpoint signTxCalls {SafeTransaction} (log : list (Event SafeTransaction))
    : nat :=
  match log with
  | [] => 0
  | SignTx _ _ _ :: log => S (signTxCalls log)
  | _ :: log => signTxCalls log
  end.

End SignForm.

(* ===================================================================== *)
(** * SocialWalletService: social login orchestration *)
(* ===================================================================== *)

Module SocialWallet.

(** The status values of the MPC SDK that the orchestration reads. *)
Inductive COREKIT_STATUS :=
| NOT_INITIALIZED
| INITIALIZED
| REQUIRED_SHARE
| LOGGED_IN.

#[global] Instance COREKIT_STATUS_eq_dec : EqDecision COREKIT_STATUS.
Proof. solve_decision. Defined.

(** The application-level wallet state. *)
Module MPCWalletState.
Inductive t := NOT_INITIALIZED | AUTHENTICATING | MANUAL_RECOVERY | READY.
End MPCWalletState.

Record UserInfo := { email : string; name : option string }.

(** An error thrown or rejected with. *)
Record Error := { message : string }.

(** ** The SDK double of the service's test

    [MockMPCCoreKit]: the status and user info the SDK exposes, what the
    double was constructed with, and the number of calls its
    [commitChanges] mock has received.  Factor keys are big numbers. *)
Record MockMPCCoreKit := {
  status : COREKIT_STATUS;
  userInfo : option UserInfo;
  stateAfterLogin : COREKIT_STATUS;
  userInfoAfterLogin : option UserInfo;
  expectedFactorKey : Z;
  commitChangesCalls : nat;
}.

(** [new MockMPCCoreKit(stateAfterLogin, userInfoAfterLogin,
    expectedFactorKey = new BN(-1))]. *)
Definition newMockMPCCoreKit (stateAfterLogin : COREKIT_STATUS)
    (userInfoAfterLogin : UserInfo) (expectedFactorKey : option Z)
    : MockMPCCoreKit :=
  {| status := INITIALIZED;
     userInfo := None;
     stateAfterLogin := stateAfterLogin;
     userInfoAfterLogin := Some userInfoAfterLogin;
     expectedFactorKey := default (-1)%Z expectedFactorKey;
     commitChangesCalls := 0 |}.

(** [loginWithOauth], once its timer has fired and the promise has
    resolved. *)
Definition loginWithOauth (kit : MockMPCCoreKit) : MockMPCCoreKit :=
  {| status := stateAfterLogin kit;
     userInfo := userInfoAfterLogin kit;
     stateAfterLogin := stateAfterLogin kit;
     userInfoAfterLogin := userInfoAfterLogin kit;
     expectedFactorKey := expectedFactorKey kit;
     commitChangesCalls := commitChangesCalls kit |}.

(** [inputFactorKey]: the expected key logs in; with any other key the
    double creates a rejected promise it does not return, so the caller
    awaits [undefined] and the status stays. *)
Definition inputFactorKey (factorKey : Z) (kit : MockMPCCoreKit)
    : MockMPCCoreKit :=
  if (factorKey =? expectedFactorKey kit)%Z then
    {| status := LOGGED_IN;
       userInfo := userInfo kit;
       stateAfterLogin := stateAfterLogin kit;
       userInfoAfterLogin := userInfoAfterLogin kit;
       expectedFactorKey := expectedFactorKey kit;
       commitChangesCalls := commitChangesCalls kit |}
  else kit.

(** [commitChanges]: a mock that resolves; the call is counted. *)
Definition commitChanges (kit : MockMPCCoreKit) : MockMPCCoreKit :=
  {| status := status kit;
     userInfo := userInfo kit;
     stateAfterLogin := stateAfterLogin kit;
     userInfoAfterLogin := userInfoAfterLogin kit;
     expectedFactorKey := expectedFactorKey kit;
     commitChangesCalls := S (commitChangesCalls kit) |}.

Definition getUserInfo (kit : MockMPCCoreKit) : option UserInfo := userInfo kit.

(** ** The service *)

(** Modelled from the spec: the class [SocialWalletService] is not among
    the sources (only its test is).  The service object holds the
    SDK it wraps and its wallet state; the number of calls received by the
    connected callback, a mock in the test, is kept with it. *)
Record SocialWalletService := {
  mpcCoreKit : MockMPCCoreKit;
  walletState : MPCWalletState.t;
  onConnectCalls : nat;
}.

(** Modelled from the spec: [new SocialWalletService(mpcCoreKit)] followed
    by [setOnConnect(mockOnConnect)] with a fresh mock, as the test does; the
    wallet state is NOT_INITIALIZED initially. *)
Definition newSocialWalletService (kit : MockMPCCoreKit) : SocialWalletService :=
  {| mpcCoreKit := kit;
     walletState := MPCWalletState.NOT_INITIALIZED;
     onConnectCalls := 0 |}.

(** Updates of the service object and a call of the connected callback. *)
Definition setWalletState (w : MPCWalletState.t) (svc : SocialWalletService)
    : SocialWalletService :=
  {| mpcCoreKit := mpcCoreKit svc;
     walletState := w;
     onConnectCalls := onConnectCalls svc |}.

Definition setKit (kit : MockMPCCoreKit) (svc : SocialWalletService)
    : SocialWalletService :=
  {| mpcCoreKit := kit;
     walletState := walletState svc;
     onConnectCalls := onConnectCalls svc |}.

Definition onConnect (svc : SocialWalletService) : SocialWalletService :=
  {| mpcCoreKit := mpcCoreKit svc;
     walletState := walletState svc;
     onConnectCalls := S (onConnectCalls svc) |}.

(** Modelled from the spec: the class [SocialWalletService] is not among
    the sources (only its test is).  A full login commits the
    session, marks the wallet ready and fires the connected callback; the
    wallet is not marked ready until the SDK reports LOGGED_IN. *)
Definition finalizeLogin (svc : SocialWalletService) : SocialWalletService :=
  if bool_decide (status (mpcCoreKit svc) = LOGGED_IN) then
    onConnect
      (setWalletState MPCWalletState.READY
         (setKit (commitChanges (mpcCoreKit svc)) svc))
  else svc.

(** Modelled from the spec: [loginAndCreate] of the missing class
    [SocialWalletService].  NOT_INITIALIZED goes to AUTHENTICATING on login
    start; the SDK login is awaited; when the SDK requires a second factor,
    device-share recovery is attempted automatically with the device factor
    found ([deviceFactor], the result of [getWebBrowserFactor]); when none
    is found the wallet settles in MANUAL_RECOVERY; a full login is
    finalised.  A login that ends in any other SDK status gives
    NOT_INITIALIZED.  The promise resolves with the SDK status. *)
Definition loginAndCreate (deviceFactor : option Z) (svc : SocialWalletService)
    : COREKIT_STATUS * SocialWalletService :=
  let svc := setWalletState MPCWalletState.AUTHENTICATING svc in
  let svc := setKit (loginWithOauth (mpcCoreKit svc)) svc in
  let svc :=
    if bool_decide (status (mpcCoreKit svc) = REQUIRED_SHARE) then
      match deviceFactor with
      | Some factor => setKit (inputFactorKey factor (mpcCoreKit svc)) svc
      | None => svc
      end
    else svc in
  let svc :=
    match status (mpcCoreKit svc) with
    | LOGGED_IN => finalizeLogin svc
    | REQUIRED_SHARE => setWalletState MPCWalletState.MANUAL_RECOVERY svc
    | _ => setWalletState MPCWalletState.NOT_INITIALIZED svc
    end in
  (status (mpcCoreKit svc), svc).

(** Modelled from the spec: [recoverAccountWithPassword] of the missing
    class [SocialWalletService].  A candidate key is derived from the
    password by the security-question mechanism ([recoverFactor]); when the
    mechanism signals failure the orchestration rejects with that error and
    does nothing else; otherwise the key is submitted to the SDK and, once
    the SDK reports LOGGED_IN, the login is finalised. *)
Definition recoverAccountWithPassword (recoverFactor : string -> Error + Z)
    (password : string) (storeDeviceShare : bool) (svc : SocialWalletService)
    : (Error + unit) * SocialWalletService :=
  match recoverFactor password with
  | inl err => (inl err, svc)
  | inr factorKey =>
    let svc := setKit (inputFactorKey factorKey (mpcCoreKit svc)) svc in
    (inr tt, finalizeLogin svc)
  end.

End SocialWallet.

(* ===================================================================== *)
(** * Vocabulary of the properties *)
(* ===================================================================== *)

(** [needle] occurs in [hay]: [hay] is some text, then [needle], then some
    text. *)
Definition occursIn (needle hay : string) : Prop :=
  exists before after, hay = before ++ needle ++ after.

(** [value] is hex data with the hex digits [digits]: the digits behind the
    "0x" prefix, or the empty string, which has none. *)
Definition hexDataWithDigits (value digits : string) : Prop :=
  value = "0x" ++ digits \/ (value = "" /\ digits = "").

(** The page of queued transactions has at least one result. *)
Definition txQueueNonEmpty {Tx : Type} (page : option (list Tx)) : Prop :=
  exists tx results, page = Some (tx :: results).

(** A navigation item with its badge replaced. *)
Definition itemWithBadge (b : bool) (item : Navigation.NavItem)
    : Navigation.NavItem :=
  {| Navigation.label := Navigation.label item;
     Navigation.href := Navigation.href item;
     Navigation.icon := Navigation.icon item;
     Navigation.badge := b |}.

(** [item], at index [i] of the table, is the first item with the href
    [setup]: the one [navItems.find] returns. *)
Definition firstWithHref (setup : string)
    (navItems : list Navigation.NavItem) (i : nat)
    (item : Navigation.NavItem) : Prop :=
  navItems !! i = Some item
  /\ Navigation.href item = setup
  /\ forall j earlier,
       (j < i)%nat ->
       navItems !! j = Some earlier ->
       Navigation.href earlier <> setup.

(** An item with the href [setup] comes before index [i] in the table. *)
Definition precededByHref (setup : string)
    (navItems : list Navigation.NavItem) (i : nat) : Prop :=
  exists j earlier,
    (j < i)%nat
    /\ navItems !! j = Some earlier
    /\ Navigation.href earlier = setup.

(** The inputs of the owner-change effect differ between two renders. *)
Definition inputsChanged (prev params : ReviewOwner.Params) : Prop :=
  ReviewOwner.removedOwner prev <> ReviewOwner.removedOwner params \/
  ReviewOwner.newOwner prev <> ReviewOwner.newOwner params \/
  ReviewOwner.threshold prev <> ReviewOwner.threshold params.

(* ===================================================================== *)
(** * Strings *)
(* ===================================================================== *)

Section StringFacts.

Lemma append_String (c : ascii) (s t : string) :
  String c s ++ t = String c (s ++ t).
Proof. reflexivity. Qed.

Lemma append_empty (t : string) : "" ++ t = t.
Proof. reflexivity. Qed.

Lemma prefix_true_iff (s1 s2 : string) :
  String.prefix s1 s2 = true <-> exists after, s2 = s1 ++ after.
Proof.
  revert s2. induction s1 as [|c s1 IH]; intros s2.
  - destruct s2; simpl; split; eauto.
  - destruct s2 as [|d s2]; simpl.
    + split; [discriminate | intros [after H]; discriminate].
    + setoid_rewrite append_String.
      destruct (ascii_dec c d) as [->|Hne].
      * rewrite IH. split; intros [after H]; exists after; congruence.
      * split; [discriminate | intros [after H]; congruence].
Qed.

Lemma includes_EmptyString (needle : string) :
  JS.includes "" needle = String.prefix needle "" || false.
Proof. reflexivity. Qed.

Lemma includes_String (c : ascii) (hay needle : string) :
  JS.includes (String c hay) needle
  = String.prefix needle (String c hay) || JS.includes hay needle.
Proof. reflexivity. Qed.

Lemma includes_true_iff (hay needle : string) :
  JS.includes hay needle = true <-> occursIn needle hay.
Proof.
  unfold occursIn. induction hay as [|c hay IH].
  - rewrite includes_EmptyString, orb_false_r, prefix_true_iff. split.
    + intros [after H]. by exists "", after.
    + intros ([|d before] & after & H); [by exists after | discriminate].
  - rewrite includes_String, orb_true_iff, prefix_true_iff, IH. split.
    + intros [[after H] | (before & after & H)].
      * by exists "", after.
      * exists (String c before), after. by rewrite append_String, H.
    + intros ([|d before] & after & H).
      * left. by exists after.
      * right. rewrite append_String in H. injection H as -> ->.
        by exists before, after.
Qed.

Lemma includes_empty (hay : string) : JS.includes hay "" = true.
Proof. apply includes_true_iff. by exists "", hay. Qed.

Lemma truthy_string_false (s : string) :
  JS.truthy_string s = false <-> s = "".
Proof. destruct s; simpl; split; congruence. Qed.

End StringFacts.

(* ===================================================================== *)
(** * TxDataRow *)
(* ===================================================================== *)

Section TxDataRowFacts.

Import TxDataRow.

Lemma isHexString_0x (digits : string) :
  Ethers.isHexString ("0x" ++ digits) = Ethers.all_hex_digits digits.
Proof. reflexivity. Qed.

(** The library's byte length of 0x-prefixed hex data with an even number
    of digits is half that number. *)
Lemma hexDataLength_0x (digits : string) :
  Ethers.all_hex_digits digits = true ->
  Nat.even (String.length digits) = true ->
  Ethers.hexDataLength ("0x" ++ digits) = Some (String.length digits / 2)%nat.
Proof.
  intros Hhex Heven. unfold Ethers.hexDataLength.
  rewrite isHexString_0x, Hhex. cbn [negb orb].
  change (String.length ("0x" ++ digits)) with (S (S (String.length digits))).
  apply Nat.even_spec in Heven as [k Hk].
  replace (S (S (String.length digits)) mod 2)%nat with 0%nat.
  - cbn [Nat.eqb negb]. f_equal.
    replace (S (S (String.length digits)) - 2)%nat
      with (String.length digits) by lia.
    done.
  - symmetry. apply Nat.Div0.mod_divides. exists (S k). lia.
Qed.

(** C4: for a defined value rendered with type tag rawData, the byte count
    displayed is half the number of hex digits of the value, for hex data
    with an even number of digits (the digits behind the 0x prefix) and for
    the empty string, which has no digits and displays 0 bytes. *)
Theorem generateDataRowValue_rawData_byte_count
    (value digits : string) (hasExplorer : option bool)
    (addressInfo : option AddressEx) :
  hexDataWithDigits value digits ->
  Ethers.all_hex_digits digits = true ->
  Nat.even (String.length digits) = true ->
  displayedByteCount
    (generateDataRowValue (Some value) (Some rawData) hasExplorer addressInfo)
  = Some (String.length digits / 2)%nat.
Proof.
  intros [-> | [-> ->]] Hhex Heven.
  - simpl. by apply hexDataLength_0x.
  - reflexivity.
Qed.

Lemma generateDataRowValue_rawData_byte_count_witness :
  displayedByteCount
    (generateDataRowValue (Some "0x12aBcdEF") (Some rawData) None None)
  = Some 4%nat
  /\ displayedByteCount
       (generateDataRowValue (Some "") (Some rawData) None None)
     = Some 0%nat.
Proof.
  split.
  - apply (generateDataRowValue_rawData_byte_count "0x12aBcdEF" "12aBcdEF");
      [by left | reflexivity | reflexivity].
  - apply (generateDataRowValue_rawData_byte_count "" "");
      [by right | reflexivity | reflexivity].
Defined.

End TxDataRowFacts.

(* ===================================================================== *)
(** * AddressBookInput *)
(* ===================================================================== *)

Section AddressBookInputFacts.

Import AddressBookInput.

(** The options are the pairs of the address book. *)
Lemma elem_of_addressBookEntries (addressBook : gmap string string)
    (entry : Entry) :
  entry ∈ addressBookEntries addressBook
  <-> addressBook !! label entry = Some (name entry).
Proof.
  unfold addressBookEntries. rewrite list_elem_of_fmap. split.
  - intros ([address nm] & -> & Hin). by apply elem_of_map_to_list in Hin.
  - intros Hlookup. exists (label entry, name entry). split.
    + by destruct entry.
    + by apply elem_of_map_to_list.
Qed.

Lemma addressBookEntries_singleton (address nm : string) :
  addressBookEntries {[ address := nm ]} = [{| label := address; name := nm |}].
Proof. unfold addressBookEntries. by rewrite map_to_list_singleton. Qed.

(** The filter keeps the options whose normalised text contains the
    normalised input. *)
Lemma elem_of_createFilterOptions {A : Type} (normalize : string -> string)
    (stringify : A -> string) (options : list A) (inputValue : string)
    (option : A) :
  option ∈ MUI.createFilterOptions normalize stringify options inputValue
  <-> option ∈ options
      /\ JS.includes (normalize (stringify option)) (normalize inputValue)
         = true.
Proof.
  unfold MUI.createFilterOptions.
  destruct (JS.truthy_string (normalize inputValue)) eqn:Htruthy; simpl.
  - by rewrite !list_elem_of_In, filter_In.
  - apply truthy_string_false in Htruthy. rewrite Htruthy, includes_empty.
    tauto.
Qed.

Lemma hasVisibleOptions_true_iff (entries : list Entry)
    (addressValue : option string) :
  hasVisibleOptions entries addressValue = true
  <-> exists entry,
        entry ∈ entries /\ JS.includes_arg (label entry) addressValue = true.
Proof.
  unfold hasVisibleOptions, JS.Boolean_nat.
  rewrite negb_true_iff, Nat.eqb_neq.
  set (keep := fun entry => JS.includes_arg (label entry) addressValue).
  split.
  - destruct (List.filter keep entries) as [|entry rest] eqn:Hfilter;
      [done | intros _].
    exists entry.
    assert (Hin : In entry (List.filter keep entries))
      by (rewrite Hfilter; by left).
    apply filter_In in Hin as [Hin Hkeep]. by rewrite list_elem_of_In.
  - intros (entry & Hin & Hkeep).
    assert (Hin' : In entry (List.filter keep entries))
      by (apply filter_In; by rewrite <- list_elem_of_In).
    destruct (List.filter keep entries); [done | simpl; lia].
Qed.

(** C5 (amended): for every address book and every typed text, the entries
    suggested are exactly the entries of the address book for which the
    name, a space and the address, concatenated in that order, contain the
    typed text, both sides taken under the filter's case rules. *)
Theorem suggestions_exactly_name_space_address
    (normalize : string -> string) (addressBook : gmap string string)
    (inputValue : string) (entry : Entry) :
  entry ∈ suggestions normalize addressBook inputValue
  <-> addressBook !! label entry = Some (name entry)
      /\ occursIn (normalize inputValue)
           (normalize (name entry ++ " " ++ label entry)).
Proof.
  unfold suggestions, abFilterOptions.
  by rewrite elem_of_createFilterOptions, elem_of_addressBookEntries,
    includes_true_iff.
Qed.

(** C5 (as stated) fails: with the entry 0x1a named "bob", typing "b 0"
    suggests the entry although the address followed by the name,
    "0x1abob", does not contain "b 0"; typing "abo" does not suggest it
    although "0x1abob" contains "abo".  The same holds with and without
    lower-casing. *)
Lemma suggestions_not_address_then_name :
  let addressBook : gmap string string := {[ "0x1a" := "bob" ]} in
  let entry := {| label := "0x1a"; name := "bob" |} in
  (suggestions JS.toLowerCase addressBook "b 0" = [entry]
   /\ suggestions id addressBook "b 0" = [entry]
   /\ JS.includes (label entry ++ name entry) "b 0" = false
   /\ JS.includes (JS.toLowerCase (label entry ++ name entry))
        (JS.toLowerCase "b 0") = false)
  /\ (suggestions JS.toLowerCase addressBook "abo" = []
      /\ suggestions id addressBook "abo" = []
      /\ JS.includes (label entry ++ name entry) "abo" = true).
Proof.
  cbv zeta. unfold suggestions. rewrite addressBookEntries_singleton.
  repeat split; vm_compute; reflexivity.
Qed.

(** C10: the open-list affordance is offered exactly when the address of
    some entry contains the typed value; entry names play no part, although
    the suggestion filter matches them: with 0x1a named "bob" and "bob"
    typed, the entry is suggested and the affordance is not offered. *)
Theorem onOpenListClick_matches_addresses_only
    (props : Props) (addressBook : gmap string string) (typed : string)
    (st : State) :
  (onOpenListClick (render props addressBook (Some typed) st)
     = Some handleOpenAutocomplete
   <-> exists address nm,
         addressBook !! address = Some nm /\ occursIn typed address)
  /\ (onOpenListClick (render props addressBook (Some typed) st) = None
      <-> ~ exists address nm,
              addressBook !! address = Some nm /\ occursIn typed address)
  /\ (suggestions JS.toLowerCase {[ "0x1a" := "bob" ]} "bob"
        = [{| label := "0x1a"; name := "bob" |}]
      /\ onOpenListClick (render props {[ "0x1a" := "bob" ]} (Some "bob") st)
         = None).
Proof.
  assert (Hvisible :
    hasVisibleOptions (addressBookEntries addressBook) (Some typed) = true
    <-> exists address nm,
          addressBook !! address = Some nm /\ occursIn typed address).
  { rewrite hasVisibleOptions_true_iff. split.
    - intros (entry & Hin & Hinc). exists (label entry), (name entry).
      split; [by apply elem_of_addressBookEntries |].
      by apply includes_true_iff.
    - intros (address & nm & Hlookup & Hocc).
      exists {| label := address; name := nm |}.
      split; [by apply elem_of_addressBookEntries |].
      by apply includes_true_iff. }
  split; [| split].
  - unfold render; simpl. rewrite <- Hvisible.
    by destruct (hasVisibleOptions _ _).
  - unfold render; simpl. rewrite <- Hvisible.
    by destruct (hasVisibleOptions _ _).
  - unfold render, suggestions; simpl.
    rewrite addressBookEntries_singleton. split; vm_compute; reflexivity.
Qed.

(** C6 (amended): the "unknown address" affordance is shown exactly when
    the consumer allows adding new entries (canAdd), whether or not the
    typed value has a match in the address book; activating it opens a
    creation dialog whose address field is pre-filled with the typed value
    and whose name field is empty. *)
Theorem unknownAddress_shown_iff_canAdd
    (props : Props) (addressBook : gmap string string)
    (addressValue : option string) (st : State) :
  (is_Some (unknownAddress (render props addressBook addressValue st))
   <-> canAdd props = Some true)
  /\ forall link,
       unknownAddress (render props addressBook addressValue st) = Some link ->
       entryDialog (render props addressBook addressValue (click link st))
       = Some {| dialogName := ""; dialogAddress := addressValue |}.
Proof.
  unfold render; simpl. destruct (canAdd props) as [[|]|]; simpl.
  - split; [split; eauto |]. by intros link [= <-].
  - split; [split; [by intros [? ?] | done] | done].
  - split; [split; [by intros [? ?] | done] | done].
Qed.

Lemma unknownAddress_shown_iff_canAdd_witness :
  let props := {| fieldName := "recipient"; canAdd := Some true |} in
  let addressBook : gmap string string := {[ "0x1a" := "bob" ]} in
  unknownAddress (render props addressBook (Some "0x2b") initialState)
  = Some (Some setOpenAddressBookTrue)
  /\ entryDialog
       (render props addressBook (Some "0x2b")
          (click (Some setOpenAddressBookTrue) initialState))
     = Some {| dialogName := ""; dialogAddress := Some "0x2b" |}.
Proof.
  cbv zeta. split; [reflexivity |].
  apply (unknownAddress_shown_iff_canAdd
           {| fieldName := "recipient"; canAdd := Some true |}
           {[ "0x1a" := "bob" ]} (Some "0x2b") initialState).
  reflexivity.
Defined.

(** C6 (as stated) fails: with canAdd set and the typed value 0x1a equal to
    an address of the address book (it is a key of the book, it is listed
    among the suggestions and the open-list affordance is offered for it),
    the "unknown address" affordance is shown all the same. *)
Lemma unknownAddress_shown_for_known_address :
  let props := {| fieldName := "recipient"; canAdd := Some true |} in
  let addressBook : gmap string string := {[ "0x1a" := "bob" ]} in
  let view := render props addressBook (Some "0x1a") initialState in
  unknownAddress view = Some (Some setOpenAddressBookTrue)
  /\ addressBook !! "0x1a" = Some "bob"
  /\ suggestions JS.toLowerCase addressBook "0x1a"
     = [{| label := "0x1a"; name := "bob" |}]
  /\ onOpenListClick view = Some handleOpenAutocomplete.
Proof.
  cbv zeta. split; [reflexivity |]. split; [by apply lookup_singleton_eq |].
  unfold render, suggestions; simpl. rewrite addressBookEntries_singleton.
  split; vm_compute; reflexivity.
Qed.

End AddressBookInputFacts.

(* ===================================================================== *)
(** * Navigation *)
(* ===================================================================== *)

Section NavigationFacts.

Import Navigation.

Context {Tx R : Type}.

Lemma hasQueuedTxs_true_iff (page : option (list Tx)) :
  hasQueuedTxs page = true <-> txQueueNonEmpty page.
Proof.
  unfold txQueueNonEmpty. destruct page as [[|tx results]|]; simpl.
  - split; [done | by intros (? & ? & ?)].
  - split; eauto.
  - split; [done | by intros (? & ? & ?)].
Qed.

Lemma hasRecoveryTxs_true_iff (recoveryQueue : list R) :
  hasRecoveryTxs recoveryQueue = true <-> recoveryQueue <> [].
Proof. by destruct recoveryQueue. Qed.

Lemma getRoute_queue (routes : TransactionRoutes) (queued recovery : bool) :
  queued = true \/ recovery = true ->
  getRoute routes queued recovery (history routes) = queue routes.
Proof.
  intros Hsome. unfold getRoute. rewrite String.eqb_refl.
  by destruct Hsome as [-> | ->]; rewrite ?orb_true_r.
Qed.

Lemma getRoute_both_empty (routes : TransactionRoutes) (href : string) :
  getRoute routes false false href = href.
Proof. unfold getRoute. by rewrite andb_false_r. Qed.

Lemma getRoute_other (routes : TransactionRoutes) (queued recovery : bool)
    (href : string) :
  href <> history routes -> getRoute routes queued recovery href = href.
Proof.
  intros Hne. unfold getRoute.
  by destruct (String.eqb_spec href (history routes)).
Qed.

(** C7: for every navigation item, the link target is the queue route when
    the item's href is the history route and the transaction queue or the
    recovery queue is non-empty; when both queues are empty, and for every
    item whose href is not the history route, it is the item's own href. *)
Theorem getRoute_history_to_queue
    (routes : TransactionRoutes) (page : option (list Tx))
    (recoveryQueue : list R) (navItems : list NavItem) (i : nat)
    (item : NavItem) :
  navItems !! i = Some item ->
  exists target,
    linkTargets routes page recoveryQueue navItems !! i = Some target
    /\ target
       = getRoute routes (hasQueuedTxs page) (hasRecoveryTxs recoveryQueue)
           (href item)
    /\ (href item = history routes ->
        txQueueNonEmpty page \/ recoveryQueue <> [] ->
        target = queue routes)
    /\ (~ txQueueNonEmpty page -> recoveryQueue = [] -> target = href item)
    /\ (href item <> history routes -> target = href item).
Proof.
  intros Hitem. eexists. split.
  { unfold linkTargets. rewrite list_lookup_fmap, Hitem. reflexivity. }
  split; [reflexivity |]. split; [| split].
  - intros -> Hsome. apply getRoute_queue.
    rewrite hasQueuedTxs_true_iff, hasRecoveryTxs_true_iff. tauto.
  - intros Hpage ->.
    destruct (hasQueuedTxs page) eqn:Hqueued.
    + by apply hasQueuedTxs_true_iff in Hqueued.
    + apply getRoute_both_empty.
  - apply getRoute_other.
Qed.

End NavigationFacts.

Lemma getRoute_history_to_queue_witness :
  exists target,
    Navigation.linkTargets
      {| Navigation.history := "/transactions/history";
         Navigation.queue := "/transactions/queue" |}
      (Some ["tx1"]) ([] : list string)
      [ {| Navigation.label := "Home"; Navigation.href := "/home";
           Navigation.icon := Some "HomeIcon"; Navigation.badge := false |};
        {| Navigation.label := "Transactions";
           Navigation.href := "/transactions/history";
           Navigation.icon := Some "TransactionIcon";
           Navigation.badge := false |} ] !! 1%nat
    = Some target
    /\ target = "/transactions/queue".
Proof.
  destruct (getRoute_history_to_queue
              {| Navigation.history := "/transactions/history";
                 Navigation.queue := "/transactions/queue" |}
              (Some ["tx1"]) ([] : list string)
              [ {| Navigation.label := "Home"; Navigation.href := "/home";
                   Navigation.icon := Some "HomeIcon";
                   Navigation.badge := false |};
                {| Navigation.label := "Transactions";
                   Navigation.href := "/transactions/history";
                   Navigation.icon := Some "TransactionIcon";
                   Navigation.badge := false |} ]
              1%nat
              {| Navigation.label := "Transactions";
                 Navigation.href := "/transactions/history";
                 Navigation.icon := Some "TransactionIcon";
                 Navigation.badge := false |}
              eq_refl)
    as (target & Hlookup & _ & Hqueue & _).
  exists target. split; [exact Hlookup |].
  apply Hqueue; [reflexivity |]. left. by exists "tx1", [].
Defined.

(* ===================================================================== *)
(** * ReviewOwner *)
(* ===================================================================== *)

Section ReviewOwnerFacts.

Import ReviewOwner.

Context {SafeTransaction Error : Type}.

Implicit Types (sender : TxSender SafeTransaction Error).
Implicit Types (ctx : SafeTxContext SafeTransaction Error).

(** The effect is committed on mount and whenever an input has changed. *)
Lemma effectRuns_mount_or_changed (prev : option Params) (params : Params) :
  prev = None \/ (exists before, prev = Some before /\ inputsChanged before params) ->
  effectRuns prev params = true.
Proof.
  intros [-> | (before & -> & Hchanged)]; [done |].
  unfold effectRuns, deps. apply negb_true_iff, bool_decide_eq_false.
  intros [= H1 H2 H3]. unfold inputsChanged in Hchanged. tauto.
Qed.

Lemma settle_resolved ctx (tx : SafeTransaction) :
  settle (inr tx) ctx
  = {| safeTx := Some tx; safeTxError := safeTxError ctx |}.
Proof. reflexivity. Qed.

Lemma settle_rejected ctx (e : Error) :
  settle (inl e) ctx = {| safeTx := safeTx ctx; safeTxError := Some e |}.
Proof. reflexivity. Qed.

(** C8: on mount, and whenever the removed owner, the new owner or the
    threshold changes, the component makes one call to the tx-sender
    service: createSwapOwnerTx with the new and the old owner address when
    a removed owner is present, createAddOwnerTx with the new owner address
    and the threshold otherwise.  A successful build puts the transaction
    in the shared pending-transaction context, a failed one puts the error
    in the shared error context. *)
Theorem ReviewOwner_builds_swap_or_add sender (prev : option Params)
    (params : Params) ctx :
  prev = None
  \/ (exists before, prev = Some before /\ inputsChanged before params) ->
  exists call promise,
    commit sender prev params ctx = ([call], settle promise ctx)
    /\ match removedOwner params with
       | Some removed =>
         let args := {| newOwnerAddress := address (newOwner params);
                        oldOwnerAddress := address removed |} in
         call = CreateSwapOwnerTx args
         /\ promise = createSwapOwnerTx sender args
       | None =>
         let args := {| ownerAddress := address (newOwner params);
                        ownerThreshold := threshold params |} in
         call = CreateAddOwnerTx args
         /\ promise = createAddOwnerTx sender args
       end
    /\ (forall tx, promise = inr tx ->
        safeTx (settle promise ctx) = Some tx
        /\ safeTxError (settle promise ctx) = safeTxError ctx)
    /\ (forall e, promise = inl e ->
        safeTxError (settle promise ctx) = Some e
        /\ safeTx (settle promise ctx) = safeTx ctx).
Proof.
  intros Hruns. apply effectRuns_mount_or_changed in Hruns.
  unfold commit, effect, buildTx. rewrite Hruns.
  destruct (removedOwner params) as [removed|]; simpl;
    eexists _, _; (split; [reflexivity |]); (split; [done |]);
    split; by intros ? ->.
Qed.

End ReviewOwnerFacts.

Lemma ReviewOwner_builds_swap_or_add_witness :
  let sender : ReviewOwner.TxSender string string :=
    {| ReviewOwner.createSwapOwnerTx := fun _ => inr "swapOwner";
       ReviewOwner.createAddOwnerTx := fun _ => inl "build failed" |} in
  let alice := {| ReviewOwner.address := "0xa1"; ReviewOwner.name := Some "Alice" |} in
  let bob := {| ReviewOwner.address := "0xb2"; ReviewOwner.name := None |} in
  let add := {| ReviewOwner.newOwner := alice;
                ReviewOwner.removedOwner := None;
                ReviewOwner.threshold := 2 |} in
  let swap := {| ReviewOwner.newOwner := alice;
                 ReviewOwner.removedOwner := Some bob;
                 ReviewOwner.threshold := 2 |} in
  let ctx := {| ReviewOwner.safeTx := None; ReviewOwner.safeTxError := None |} in
  exists call promise,
    ReviewOwner.commit sender (Some add) swap ctx
    = ([call], ReviewOwner.settle promise ctx)
    /\ call = ReviewOwner.CreateSwapOwnerTx
                {| ReviewOwner.newOwnerAddress := "0xa1";
                   ReviewOwner.oldOwnerAddress := "0xb2" |}
    /\ ReviewOwner.safeTx (ReviewOwner.settle promise ctx) = Some "swapOwner".
Proof.
  cbv zeta.
  destruct (ReviewOwner_builds_swap_or_add
              {| ReviewOwner.createSwapOwnerTx := fun _ => inr "swapOwner";
                 ReviewOwner.createAddOwnerTx := fun _ => inl "build failed" |}
              (Some {| ReviewOwner.newOwner :=
                         {| ReviewOwner.address := "0xa1";
                            ReviewOwner.name := Some "Alice" |};
                       ReviewOwner.removedOwner := None;
                       ReviewOwner.threshold := 2 |})
              {| ReviewOwner.newOwner :=
                   {| ReviewOwner.address := "0xa1";
                      ReviewOwner.name := Some "Alice" |};
                 ReviewOwner.removedOwner :=
                   Some {| ReviewOwner.address := "0xb2";
                           ReviewOwner.name := None |};
                 ReviewOwner.threshold := 2 |}
              {| ReviewOwner.safeTx := None; ReviewOwner.safeTxError := None |})
    as (call & promise & Hcommit & [Hcall Hpromise] & Hok & _).
  { right. eexists. split; [reflexivity |]. left. simpl. discriminate. }
  exists call, promise. split; [exact Hcommit |]. split; [exact Hcall |].
  by apply Hok.
Defined.

(* ===================================================================== *)
(** * SignForm *)
(* ===================================================================== *)

Section SignFormFacts.

Import SignForm.

Context {SafeTransaction : Type}.

Implicit Types (hooks : Hooks SafeTransaction) (props : Props SafeTransaction).

Lemma handleSubmit_resolved hooks props (st : State) (u : unit) :
  signTx hooks (safeTx props) (txId props) (origin props) = inr u ->
  handleSubmit hooks props st
  = (tt, {| isSubmittable := false; submitError := None |},
     (submissionStart props ++ [SetTxFlowUndefined; OnSubmit])%list).
Proof.
  intros Hsign. unfold handleSubmit, bind, awaitSignTx; simpl.
  by rewrite Hsign.
Qed.

Lemma handleSubmit_rejected hooks props (st : State) (err : Error) :
  signTx hooks (safeTx props) (txId props) (origin props) = inl err ->
  handleSubmit hooks props st
  = (tt, {| isSubmittable := true; submitError := Some err |},
     (submissionStart props
      ++ [ LogError _804 (message err); SetIsSubmittable true;
           SetSubmitError (Some err) ])%list).
Proof.
  intros Hsign. unfold handleSubmit, bind, awaitSignTx; simpl.
  by rewrite Hsign.
Qed.

(** The form never offers its submit button to an account that is not an
    owner. *)
Lemma submitButtonDisabled_non_owner hooks props (isOk : bool) (st : State) :
  isOwner hooks = false ->
  submitButtonDisabled (render hooks props isOk st) = true.
Proof.
  intros Howner. unfold render, submitDisabled, cannotPropose; simpl.
  rewrite Howner. simpl. by rewrite !orb_true_r.
Qed.

(** C9: every submission first disables submission and clears the prior
    error, then calls the signing action.  If the action rejects, the
    handler logs the error under category 804, restores submittability and
    stores the error, which the form of an owner then displays, and the
    completion callback is not invoked.  If the action resolves, the handler
    closes the active modal flow and then invokes the completion
    callback. *)
Theorem handleSubmit_settles hooks props (st : State) :
  (forall err,
     signTx hooks (safeTx props) (txId props) (origin props) = inl err ->
     logOf (handleSubmit hooks props st)
     = (submissionStart props
        ++ [ LogError _804 (message err); SetIsSubmittable true;
             SetSubmitError (Some err) ])%list
     /\ (OnSubmit ∉ logOf (handleSubmit hooks props st))
     /\ stateOf (handleSubmit hooks props st)
        = {| isSubmittable := true; submitError := Some err |}
     /\ (isOwner hooks = true ->
         forall isOk,
           errorMessage
             (render hooks props isOk (stateOf (handleSubmit hooks props st)))
           = Some (ErrorSubmitting err)))
  /\ (forall u,
        signTx hooks (safeTx props) (txId props) (origin props) = inr u ->
        logOf (handleSubmit hooks props st)
        = (submissionStart props ++ [SetTxFlowUndefined; OnSubmit])%list
        /\ stateOf (handleSubmit hooks props st)
           = {| isSubmittable := false; submitError := None |}).
Proof.
  split.
  - intros err Hsign. rewrite (handleSubmit_rejected _ _ _ _ Hsign).
    unfold logOf, stateOf, submissionStart; simpl.
    split; [done |]. split; [| split; [done |]].
    + rewrite !elem_of_cons, elem_of_nil. by intros [?|[?|[?|[?|[?|[?|[?|?]]]]]]].
    + intros Howner isOk. unfold render, cannotPropose; simpl.
      by rewrite Howner.
  - intros u Hsign. by rewrite (handleSubmit_resolved _ _ _ _ Hsign).
Qed.

(** One click by an account that is not an owner: the button is disabled
    through the cannotPropose guard and the click does nothing. *)
Lemma non_owner_click hooks props (isOk : bool) (st : State) :
  isOwner hooks = false ->
  cannotPropose hooks = true
  /\ submitDisabled hooks props st = true
  /\ submitButtonDisabled (render hooks props isOk st) = true
  /\ clickSubmit hooks props isOk st = (tt, st, [])
  /\ (isSubmittable st = true ->
      errorMessage (render hooks props isOk st) = Some NotAnOwner).
Proof.
  intros Howner.
  pose proof (submitButtonDisabled_non_owner hooks props isOk st Howner)
    as Hbutton.
  split; [by unfold cannotPropose; rewrite Howner |].
  split.
  { unfold submitDisabled, cannotPropose. rewrite Howner. simpl.
    by rewrite !orb_true_r. }
  split; [done |]. split.
  - unfold clickSubmit. by rewrite Hbutton.
  - intros Hsubmittable. unfold render, cannotPropose; simpl.
    by rewrite Hsubmittable, Howner.
Qed.

End SignFormFacts.

Lemma handleSubmit_settles_witness :
  let rejecting : SignForm.Hooks string :=
    {| SignForm.isOwner := true;
       SignForm.signTx := fun _ _ _ => inl {| SignForm.message := "rejected" |} |} in
  let resolving : SignForm.Hooks string :=
    {| SignForm.isOwner := true; SignForm.signTx := fun _ _ _ => inr tt |} in
  let props :=
    {| SignForm.safeTx := Some "tx"; SignForm.txId := Some "id";
       SignForm.disableSubmit := false; SignForm.origin := None |} in
  SignForm.stateOf (SignForm.handleSubmit rejecting props SignForm.initialState)
  = {| SignForm.isSubmittable := true;
       SignForm.submitError := Some {| SignForm.message := "rejected" |} |}
  /\ SignForm.logOf (SignForm.handleSubmit resolving props SignForm.initialState)
     = (SignForm.submissionStart props
        ++ [SignForm.SetTxFlowUndefined; SignForm.OnSubmit])%list.
Proof.
  cbv zeta. split.
  - apply (handleSubmit_settles
             {| SignForm.isOwner := true;
                SignForm.signTx :=
                  fun _ _ _ => inl {| SignForm.message := "rejected" |} |}
             {| SignForm.safeTx := Some "tx"; SignForm.txId := Some "id";
                SignForm.disableSubmit := false; SignForm.origin := None |}
             SignForm.initialState).
    reflexivity.
  - apply (proj2
             (handleSubmit_settles
                {| SignForm.isOwner := true;
                   SignForm.signTx := fun _ _ _ => inr tt |}
                {| SignForm.safeTx := Some "tx"; SignForm.txId := Some "id";
                   SignForm.disableSubmit := false; SignForm.origin := None |}
                SignForm.initialState) tt).
    reflexivity.
Defined.

(* ===================================================================== *)
(** * SocialWalletService *)
(* ===================================================================== *)

Section SocialWalletFacts.

Import SocialWallet.

Lemma loginWithOauth_status (kit : MockMPCCoreKit) :
  status (loginWithOauth kit) = stateAfterLogin kit.
Proof. reflexivity. Qed.

Lemma finalizeLogin_not_logged_in (svc : SocialWalletService) :
  status (mpcCoreKit svc) <> LOGGED_IN -> finalizeLogin svc = svc.
Proof. intros Hne. unfold finalizeLogin. by rewrite bool_decide_eq_false_2. Qed.

Lemma inputFactorKey_status (factorKey : Z) (kit : MockMPCCoreKit) :
  status (inputFactorKey factorKey kit) = LOGGED_IN
  \/ inputFactorKey factorKey kit = kit.
Proof. unfold inputFactorKey. destruct (_ =? _)%Z; auto. Qed.

(** The wallet is marked ready by a login only when the SDK reports
    LOGGED_IN. *)
Lemma loginAndCreate_ready_logged_in (deviceFactor : option Z)
    (svc : SocialWalletService) :
  walletState (loginAndCreate deviceFactor svc).2 = MPCWalletState.READY ->
  (loginAndCreate deviceFactor svc).1 = LOGGED_IN.
Proof.
  unfold loginAndCreate; cbn [fst snd].
  set (svc3 := if bool_decide _ then _ else _).
  destruct (status (mpcCoreKit svc3)) eqn:Hstatus; [done | done | done |].
  unfold finalizeLogin. by rewrite Hstatus.
Qed.

(** C2: when the SDK reports REQUIRED_SHARE after login and no device
    factor is found, loginAndCreate resolves with REQUIRED_SHARE and leaves
    the wallet state MANUAL_RECOVERY; the connected callback and the
    session commit have received no call. *)
Theorem loginAndCreate_without_device_factor (svc : SocialWalletService) :
  stateAfterLogin (mpcCoreKit svc) = REQUIRED_SHARE ->
  (loginAndCreate None svc).1 = REQUIRED_SHARE
  /\ walletState (loginAndCreate None svc).2 = MPCWalletState.MANUAL_RECOVERY
  /\ onConnectCalls (loginAndCreate None svc).2 = onConnectCalls svc
  /\ commitChangesCalls (mpcCoreKit (loginAndCreate None svc).2)
     = commitChangesCalls (mpcCoreKit svc).
Proof.
  intros Hafter. unfold loginAndCreate; cbn [fst snd].
  cbn [setKit setWalletState mpcCoreKit walletState onConnectCalls].
  rewrite loginWithOauth_status, Hafter. simpl.
  by rewrite Hafter.
Qed.

Lemma loginAndCreate_without_device_factor_witness :
  let kit :=
    newMockMPCCoreKit REQUIRED_SHARE
      {| email := "test@test.com"; name := Some "Test" |} None in
  let settled := loginAndCreate None (newSocialWalletService kit) in
  settled.1 = REQUIRED_SHARE
  /\ walletState settled.2 = MPCWalletState.MANUAL_RECOVERY
  /\ onConnectCalls settled.2 = 0%nat
  /\ commitChangesCalls (mpcCoreKit settled.2) = 0%nat.
Proof.
  cbv zeta.
  apply (loginAndCreate_without_device_factor
           (newSocialWalletService
              (newMockMPCCoreKit REQUIRED_SHARE
                 {| email := "test@test.com"; name := Some "Test" |} None))).
  reflexivity.
Defined.

(** C3: when the security-question mechanism rejects the answer,
    recoverAccountWithPassword rejects with the mechanism's error and the
    service is left as it was: same wallet state, no call to the connected
    callback, no session commit. *)
Theorem recoverAccountWithPassword_wrong_answer
    (recoverFactor : string -> Error + Z) (password : string)
    (storeDeviceShare : bool) (svc : SocialWalletService) (err : Error) :
  recoverFactor password = inl err ->
  (recoverAccountWithPassword recoverFactor password storeDeviceShare svc).1
  = inl err
  /\ (recoverAccountWithPassword recoverFactor password storeDeviceShare svc).2
     = svc
  /\ walletState
       (recoverAccountWithPassword recoverFactor password storeDeviceShare svc).2
     = walletState svc
  /\ onConnectCalls
       (recoverAccountWithPassword recoverFactor password storeDeviceShare svc).2
     = onConnectCalls svc
  /\ commitChangesCalls
       (mpcCoreKit
          (recoverAccountWithPassword recoverFactor password storeDeviceShare
             svc).2)
     = commitChangesCalls (mpcCoreKit svc).
Proof.
  intros Hreject. unfold recoverAccountWithPassword. by rewrite Hreject.
Qed.

Lemma recoverAccountWithPassword_wrong_answer_witness :
  let kit :=
    newMockMPCCoreKit REQUIRED_SHARE
      {| email := "test@test.com"; name := Some "Test" |} (Some 7%Z) in
  let svc := newSocialWalletService kit in
  let recoverFactor : string -> Error + Z :=
    fun _ => inl {| message := "Invalid answer" |} in
  recoverAccountWithPassword recoverFactor "test" false svc
  = (inl {| message := "Invalid answer" |}, svc).
Proof.
  cbv zeta.
  destruct (recoverAccountWithPassword_wrong_answer
              (fun _ => inl {| message := "Invalid answer" |}) "test" false
              (newSocialWalletService
                 (newMockMPCCoreKit REQUIRED_SHARE
                    {| email := "test@test.com"; name := Some "Test" |}
                    (Some 7%Z)))
              {| message := "Invalid answer" |} eq_refl)
    as (Hresult & Hsvc & _).
  apply injective_projections; [exact Hresult | exact Hsvc].
Defined.

End SocialWalletFacts.

(* ===================================================================== *)
(** * SignForm: enabling, retries and repeated clicks *)
(* ===================================================================== *)

Section SignFormClicks.

Import SignForm.

Context {SafeTransaction : Type}.

Implicit Types (hooks : Hooks SafeTransaction) (props : Props SafeTransaction).

Lemma signTxCalls_app (log1 log2 : list (Event SafeTransaction)) :
  signTxCalls (log1 ++ log2) = (signTxCalls log1 + signTxCalls log2)%nat.
Proof.
  induction log1 as [|e log1 IH]; [done |].
  destruct e; simpl; by rewrite ?IH.
Qed.

Lemma logOf_run {A} (a : A) (st : State)
    (log : list (Event SafeTransaction)) :
  logOf (a, st, log) = log.
Proof. reflexivity. Qed.

Lemma stateOf_run {A} (a : A) (st : State)
    (log : list (Event SafeTransaction)) :
  stateOf (a, st, log) = st.
Proof. reflexivity. Qed.

Lemma clickSubmit_enabled hooks props (isOk : bool) (st : State) :
  submitButtonDisabled (render hooks props isOk st) = false ->
  clickSubmit hooks props isOk st = handleSubmit hooks props st.
Proof. intros Henabled. unfold clickSubmit. by rewrite Henabled. Qed.

Lemma clickSubmitTimes_S hooks props (isOk : bool) (n : nat) (st : State) :
  clickSubmitTimes hooks props isOk (S n) st
  = (tt,
     stateOf (clickSubmitTimes hooks props isOk n
                (stateOf (clickSubmit hooks props isOk st))),
     (logOf (clickSubmit hooks props isOk st)
      ++ logOf (clickSubmitTimes hooks props isOk n
                  (stateOf (clickSubmit hooks props isOk st))))%list).
Proof.
  cbn [clickSubmitTimes]. unfold bind, logOf, stateOf.
  destruct (clickSubmit hooks props isOk st) as [[[] st1] log1]; simpl.
  by destruct (clickSubmitTimes hooks props isOk n st1) as [[[] st2] log2].
Qed.

(** An account that is not an owner can click as often as it likes: the
    submit handler never runs. *)
Lemma clickSubmitTimes_non_owner hooks props (isOk : bool) (n : nat)
    (st : State) :
  isOwner hooks = false ->
  clickSubmitTimes hooks props isOk n st = (tt, st, []).
Proof.
  intros Howner. induction n as [|n IH]; [done |].
  destruct (non_owner_click hooks props isOk st Howner)
    as (_ & _ & _ & Hclick & _).
  by rewrite clickSubmitTimes_S, Hclick, !stateOf_run, !logOf_run, IH.
Qed.

(** C1: while the active account is not a registered owner of the Safe,
    submission is blocked: the submit button, the only trigger of the
    submit handler, is disabled through the cannotPropose guard, so that
    however often submission is attempted the handler does not run, the
    form stays as it is and signTx is never called; and the form, which is
    submittable initially and stays so, shows the explanatory message
    instead of being silently disabled. *)
Theorem non_owner_submission_blocked hooks props (isOk : bool) (n : nat)
    (st : State) :
  isOwner hooks = false ->
  cannotPropose hooks = true
  /\ submitDisabled hooks props st = true
  /\ submitButtonDisabled (render hooks props isOk st) = true
  /\ clickSubmitTimes hooks props isOk n st = (tt, st, [])
  /\ signTxCalls (logOf (clickSubmitTimes hooks props isOk n st)) = 0%nat
  /\ (isSubmittable st = true ->
      errorMessage
        (render hooks props isOk
           (stateOf (clickSubmitTimes hooks props isOk n st)))
      = Some NotAnOwner)
  /\ errorMessage
       (render hooks props isOk
          (stateOf (clickSubmitTimes hooks props isOk n initialState)))
     = Some NotAnOwner.
Proof.
  intros Howner.
  destruct (non_owner_click hooks props isOk st Howner)
    as (Hguard & Hdisabled & Hbutton & _ & Hmessage).
  rewrite !(clickSubmitTimes_non_owner _ _ _ _ _ Howner).
  rewrite !stateOf_run, logOf_run.
  split; [done |]. split; [done |]. split; [done |]. split; [done |].
  split; [done |]. split; [done |].
  by apply (non_owner_click hooks props isOk initialState Howner).
Qed.

(** X1: the submit button is enabled exactly when the wallet check passes,
    a transaction is present, the form is submittable, the caller has not
    disabled submission and the account is an owner. *)
Theorem submitButton_enabled_iff hooks props (isOk : bool) (st : State) :
  submitButtonDisabled (render hooks props isOk st) = false
  <-> isOk = true
      /\ is_Some (safeTx props)
      /\ isSubmittable st = true
      /\ disableSubmit props = false
      /\ isOwner hooks = true.
Proof.
  unfold render, submitDisabled, cannotPropose; simpl.
  rewrite !orb_false_iff, !negb_false_iff, bool_decide_eq_true. tauto.
Qed.

(** A form that is not submittable ignores every click. *)
Lemma clickSubmitTimes_not_submittable hooks props (isOk : bool) (n : nat)
    (st : State) :
  isSubmittable st = false ->
  clickSubmitTimes hooks props isOk n st = (tt, st, []).
Proof.
  intros Hst. induction n as [|n IH]; [done |].
  assert (Hclick : clickSubmit hooks props isOk st = (tt, st, [])).
  { unfold clickSubmit.
    destruct (submitButtonDisabled _) eqn:Hbutton; [done |].
    apply submitButton_enabled_iff in Hbutton as (_ & _ & Hsub & _).
    congruence. }
  rewrite clickSubmitTimes_S, Hclick, !stateOf_run, !logOf_run.
  by rewrite IH.
Qed.

(** X2: when the signing action resolves, any number of clicks on the
    submit button makes at most one signTx call, and exactly one when the
    button was enabled at the first click: after a successful submission
    the form is no longer submittable. *)
Theorem clicks_sign_at_most_once hooks props (isOk : bool) (u : unit)
    (n : nat) (st : State) :
  signTx hooks (safeTx props) (txId props) (origin props) = inr u ->
  (signTxCalls (logOf (clickSubmitTimes hooks props isOk n st)) <= 1)%nat
  /\ (submitButtonDisabled (render hooks props isOk st) = false ->
      (0 < n)%nat ->
      signTxCalls (logOf (clickSubmitTimes hooks props isOk n st)) = 1%nat
      /\ isSubmittable (stateOf (clickSubmitTimes hooks props isOk n st))
         = false).
Proof.
  intros Hsign.
  assert (Hfirst : forall m st0,
    submitButtonDisabled (render hooks props isOk st0) = false ->
    signTxCalls (logOf (clickSubmitTimes hooks props isOk (S m) st0)) = 1%nat
    /\ isSubmittable (stateOf (clickSubmitTimes hooks props isOk (S m) st0))
       = false).
  { intros m st0 Henabled.
    rewrite clickSubmitTimes_S, (clickSubmit_enabled _ _ _ _ Henabled).
    rewrite (handleSubmit_resolved _ _ _ _ Hsign).
    rewrite !stateOf_run, !logOf_run.
    rewrite clickSubmitTimes_not_submittable by done.
    rewrite stateOf_run, logOf_run, signTxCalls_app. done. }
  split.
  - revert st. induction n as [|n IH]; intros st; [simpl; lia |].
    destruct (submitButtonDisabled (render hooks props isOk st)) eqn:Hbutton.
    + rewrite clickSubmitTimes_S. unfold clickSubmit. rewrite Hbutton.
      rewrite !stateOf_run, !logOf_run. apply IH.
    + destruct (Hfirst n st Hbutton) as [-> _]. lia.
  - intros Henabled Hn. destruct n as [|n]; [lia |]. by apply Hfirst.
Qed.


(** X3: when the signing action rejects, every click on an enabled submit
    button makes a new signTx call and leaves the button enabled:
    re-submission stays possible after each failure, and the form of the
    owner shows the error of the last attempt. *)
Theorem clicks_retry_after_failure hooks props (isOk : bool) (err : Error)
    (n : nat) (st : State) :
  signTx hooks (safeTx props) (txId props) (origin props) = inl err ->
  submitButtonDisabled (render hooks props isOk st) = false ->
  signTxCalls (logOf (clickSubmitTimes hooks props isOk n st)) = n
  /\ submitButtonDisabled
       (render hooks props isOk
          (stateOf (clickSubmitTimes hooks props isOk n st)))
     = false
  /\ ((0 < n)%nat ->
      errorMessage
        (render hooks props isOk
           (stateOf (clickSubmitTimes hooks props isOk n st)))
      = Some (ErrorSubmitting err)).
Proof.
  intros Hsign. revert st. induction n as [|n IH]; intros st Henabled.
  - split; [done |]. split; [done | lia].
  - rewrite clickSubmitTimes_S, (clickSubmit_enabled _ _ _ _ Henabled).
    rewrite (handleSubmit_rejected _ _ _ _ Hsign).
    rewrite !stateOf_run, !logOf_run.
    set (st1 := {| isSubmittable := true; submitError := Some err |}).
    assert (Henabled1 :
      submitButtonDisabled (render hooks props isOk st1) = false).
    { apply submitButton_enabled_iff.
      apply submitButton_enabled_iff in Henabled as (? & ? & _ & ? & ?).
      done. }
    destruct (IH st1 Henabled1) as (Hcalls & Hbutton & Hmessage).
    rewrite signTxCalls_app, Hcalls. split; [done |]. split; [done |].
    intros _. destruct n as [|n]; [| apply Hmessage; lia].
    apply submitButton_enabled_iff in Henabled as (_ & _ & _ & _ & Howner).
    unfold render, cannotPropose; simpl. by rewrite Howner.
Qed.

End SignFormClicks.

Lemma non_owner_submission_blocked_witness :
  let hooks : SignForm.Hooks string :=
    {| SignForm.isOwner := false; SignForm.signTx := fun _ _ _ => inr tt |} in
  let props :=
    {| SignForm.safeTx := Some "tx"; SignForm.txId := Some "id";
       SignForm.disableSubmit := false; SignForm.origin := None |} in
  SignForm.clickSubmitTimes hooks props true 3 SignForm.initialState
  = (tt, SignForm.initialState, [])
  /\ SignForm.errorMessage
       (SignForm.render hooks props true
          (SignForm.stateOf
             (SignForm.clickSubmitTimes hooks props true 3
                SignForm.initialState)))
     = Some SignForm.NotAnOwner.
Proof.
  cbv zeta.
  destruct (non_owner_submission_blocked
              {| SignForm.isOwner := false;
                 SignForm.signTx := fun _ _ _ => inr tt |}
              {| SignForm.safeTx := Some "tx"; SignForm.txId := Some "id";
                 SignForm.disableSubmit := false; SignForm.origin := None |}
              true 3 SignForm.initialState eq_refl)
    as (_ & _ & _ & Hclicks & _ & _ & Hmessage).
  split; [exact Hclicks | exact Hmessage].
Defined.

Lemma clicks_sign_at_most_once_witness :
  let hooks : SignForm.Hooks string :=
    {| SignForm.isOwner := true; SignForm.signTx := fun _ _ _ => inr tt |} in
  let props :=
    {| SignForm.safeTx := Some "tx"; SignForm.txId := Some "id";
       SignForm.disableSubmit := false; SignForm.origin := None |} in
  SignForm.signTxCalls
    (SignForm.logOf
       (SignForm.clickSubmitTimes hooks props true 3 SignForm.initialState))
  = 1%nat.
Proof.
  cbv zeta.
  apply (clicks_sign_at_most_once
           {| SignForm.isOwner := true;
              SignForm.signTx := fun _ _ _ => inr tt |}
           {| SignForm.safeTx := Some "tx"; SignForm.txId := Some "id";
              SignForm.disableSubmit := false; SignForm.origin := None |}
           true tt 3 SignForm.initialState eq_refl);
    [reflexivity | lia].
Defined.

Lemma clicks_retry_after_failure_witness :
  let hooks : SignForm.Hooks string :=
    {| SignForm.isOwner := true;
       SignForm.signTx :=
         fun _ _ _ => inl {| SignForm.message := "rejected" |} |} in
  let props :=
    {| SignForm.safeTx := Some "tx"; SignForm.txId := Some "id";
       SignForm.disableSubmit := false; SignForm.origin := None |} in
  SignForm.signTxCalls
    (SignForm.logOf
       (SignForm.clickSubmitTimes hooks props true 3 SignForm.initialState))
  = 3%nat.
Proof.
  cbv zeta.
  apply (clicks_retry_after_failure
           {| SignForm.isOwner := true;
              SignForm.signTx :=
                fun _ _ _ => inl {| SignForm.message := "rejected" |} |}
           {| SignForm.safeTx := Some "tx"; SignForm.txId := Some "id";
              SignForm.disableSubmit := false; SignForm.origin := None |}
           true {| SignForm.message := "rejected" |} 3 SignForm.initialState
           eq_refl).
  reflexivity.
Defined.

(* ===================================================================== *)
(** * TxDataRow: absent values, malformed data and rows *)
(* ===================================================================== *)

Section TxDataRowRows.

Import TxDataRow.

Lemma isHexString_true (value : string) :
  Ethers.isHexString value = true ->
  exists digits, value = "0x" ++ digits /\ Ethers.all_hex_digits digits = true.
Proof.
  destruct value as [|[[] [] [] [] [] [] [] []] value]; try discriminate.
  destruct value as [|[[] [] [] [] [] [] [] []] digits]; try discriminate.
  intros Hhex. by exists digits.
Qed.

Lemma even_length_0x (digits : string) :
  (String.length ("0x" ++ digits) mod 2 =? 0)%nat
  = Nat.even (String.length digits).
Proof.
  change (String.length ("0x" ++ digits)) with (S (S (String.length digits))).
  generalize (String.length digits) as n. intros n.
  destruct (Nat.even n) eqn:Heven.
  - apply Nat.eqb_eq. apply Nat.even_spec in Heven as [k Hk].
    apply Nat.Div0.mod_divides. exists (S k). lia.
  - apply Nat.eqb_neq. intros Hmod.
    apply Nat.Div0.mod_divides in Hmod as [k Hk].
    assert (Hn : Nat.even n = true)
      by (apply Nat.even_spec; exists (k - 1)%nat; lia).
    congruence.
Qed.

(** X4: the formatter renders nothing exactly for an absent value; for
    every defined value, the empty string included, and every type tag it
    renders an element that carries the value unchanged. *)
Theorem generateDataRowValue_absent_or_verbatim
    (value : option string) (type : option DataRowType)
    (hasExplorer : option bool) (addressInfo : option AddressEx) :
  (generateDataRowValue value type hasExplorer addressInfo = None
   <-> value = None)
  /\ elementValue <$> generateDataRowValue value type hasExplorer addressInfo
     = value.
Proof.
  destruct value as [v|]; simpl; [| done].
  by destruct type as [[]|].
Qed.

(** X5: for raw data a byte count is displayed only for the empty string
    and for 0x-prefixed data of hex digits in even number; for any other
    value (no prefix, an odd number of digits, a character that is no hex
    digit) the row shows "bytes" without a number. *)
Theorem rawData_count_only_for_hex_data
    (value : string) (hasExplorer : option bool)
    (addressInfo : option AddressEx) :
  is_Some
    (displayedByteCount
       (generateDataRowValue (Some value) (Some rawData) hasExplorer
          addressInfo))
  <-> exists digits,
        hexDataWithDigits value digits
        /\ Ethers.all_hex_digits digits = true
        /\ Nat.even (String.length digits) = true.
Proof.
  split.
  - destruct value as [|c value].
    + intros _. exists "". split; [by right | done].
    + cbn [generateDataRowValue displayedByteCount JS.truthy_string].
      unfold Ethers.hexDataLength.
      destruct (Ethers.isHexString (String c value)) eqn:Hhex;
        [| by intros [? ?]].
      apply isHexString_true in Hhex as (digits & -> & Hdigits).
      rewrite even_length_0x. cbn [negb orb].
      destruct (Nat.even (String.length digits)) eqn:Heven;
        [| by intros [? ?]].
      intros _. exists digits. split; [by left | done].
  - intros (digits & [-> | [-> ->]] & Hdigits & Heven); [| by eexists].
    cbn [generateDataRowValue displayedByteCount].
    change (JS.truthy_string ("0x" ++ digits)) with true. cbv iota.
    rewrite hexDataLength_0x by done. by eexists.
Qed.

(** X6: a data row built from the formatter is rendered exactly when the
    value is defined; it then keeps its title and shows the formatter's
    element itself, never a text wrapped a second time. *)
Theorem dataRow_rendered_iff_value_defined
    (title : Node) (value : option string) (type : option DataRowType)
    (hasExplorer : option bool) (addressInfo : option AddressEx) :
  (dataRow title value type hasExplorer addressInfo = None <-> value = None)
  /\ forall row,
       dataRow title value type hasExplorer addressInfo = Some row ->
       rowTitle row = title
       /\ exists e,
            generateDataRowValue value type hasExplorer addressInfo = Some e
            /\ rowBody row = Child e.
Proof.
  unfold dataRow.
  destruct (generateDataRowValue_absent_or_verbatim value type hasExplorer
              addressInfo) as [Hnone _].
  destruct (generateDataRowValue value type hasExplorer addressInfo)
    as [e|] eqn:Hrender; simpl.
  - split.
    + split; [done |]. intros Hvalue. by apply Hnone in Hvalue.
    + intros row [= <-]. split; [done |]. by exists e.
  - split; [| done]. split; [intros _; by apply Hnone | done].
Qed.

End TxDataRowRows.

Lemma dataRow_rendered_iff_value_defined_witness :
  exists e,
    TxDataRow.generateDataRowValue (Some "0x12ab") (Some TxDataRow.bytes)
      None None = Some e
    /\ TxDataRow.rowBody
         {| TxDataRow.rowTitle := TxDataRow.TextNode "Data";
            TxDataRow.rowBody :=
              TxDataRow.Child (TxDataRow.HexEncodedData 60 "0x12ab") |}
       = TxDataRow.Child e.
Proof.
  apply (dataRow_rendered_iff_value_defined (TxDataRow.TextNode "Data")
           (Some "0x12ab") (Some TxDataRow.bytes) None None).
  reflexivity.
Defined.

(* ===================================================================== *)
(** * Navigation: subdirectories, selection and the badge *)
(* ===================================================================== *)

Section NavigationSelection.

Import Navigation.

Lemma occursIn_slash_String (c : ascii) (s : string) :
  occursIn "/" (String c s) <-> c = "/"%char \/ occursIn "/" s.
Proof.
  unfold occursIn. split.
  - intros ([|d before] & after & H).
    + left. rewrite append_empty, append_String in H. congruence.
    + right. rewrite append_String in H. injection H as -> ->.
      by exists before, after.
  - intros [-> | (before & after & ->)].
    + by exists "", s.
    + by exists (String c before), after.
Qed.

Lemma not_occursIn_slash_empty : ~ occursIn "/" "".
Proof. by intros ([|d before] & after & H). Qed.

Lemma split_not_nil (sep : ascii) (s : string) : JS.split sep s <> [].
Proof.
  destruct s as [|c s]; simpl; [done |].
  destruct (Ascii.eqb c sep); [done |]. by destruct (JS.split sep s).
Qed.

(** A path without '/' is its own single piece. *)
Lemma split_no_slash (s : string) :
  ~ occursIn "/" s -> JS.split "/" s = [s].
Proof.
  induction s as [|c s IH]; intros Hno; [done |].
  rewrite occursIn_slash_String in Hno. cbn [JS.split].
  destruct (Ascii.eqb_spec c "/") as [-> | Hne]; [tauto |].
  rewrite IH by tauto. done.
Qed.

(** A path with a '/' has at least two pieces. *)
Lemma split_slash (s : string) :
  occursIn "/" s ->
  exists piece next pieces, JS.split "/" s = piece :: next :: pieces.
Proof.
  induction s as [|c s IH]; intros Hocc.
  - by apply not_occursIn_slash_empty in Hocc.
  - cbn [JS.split]. destruct (Ascii.eqb_spec c "/") as [-> | Hne].
    + destruct (JS.split "/" s) as [|next pieces] eqn:Hsplit.
      * by apply split_not_nil in Hsplit.
      * by exists "", next, pieces.
    + apply occursIn_slash_String in Hocc as [? | Hocc]; [done |].
      destruct (IH Hocc) as (piece & next & pieces & ->).
      by exists (String c piece), next, pieces.
Qed.

(** The first piece ends at the first '/'. *)
Lemma split_segment (segment rest : string) :
  ~ occursIn "/" segment ->
  JS.split "/" (segment ++ "/" ++ rest) = segment :: JS.split "/" rest.
Proof.
  induction segment as [|c segment IH]; intros Hno; [done |].
  rewrite occursIn_slash_String in Hno. rewrite append_String.
  cbn [JS.split]. destruct (Ascii.eqb_spec c "/") as [-> | Hne]; [tauto |].
  rewrite IH by tauto. done.
Qed.

Lemma split_leading_slash (s : string) :
  JS.split "/" ("/" ++ s) = "" :: JS.split "/" s.
Proof. reflexivity. Qed.

(** X7: the subdirectory of a path is its first segment: for a path "/seg"
    or "/seg/..." whose segment has no '/', it is "seg". *)
Theorem getSubdirectory_first_segment (segment : string) :
  ~ occursIn "/" segment ->
  getSubdirectory ("/" ++ segment) = Some segment
  /\ forall rest,
       getSubdirectory ("/" ++ segment ++ "/" ++ rest) = Some segment.
Proof.
  intros Hno. unfold getSubdirectory. split.
  - by rewrite split_leading_slash, split_no_slash.
  - intros rest. by rewrite split_leading_slash, split_segment.
Qed.

Lemma getSubdirectory_first_segment_witness :
  getSubdirectory "/transactions" = Some "transactions"
  /\ getSubdirectory "/transactions/history" = Some "transactions".
Proof.
  assert (Hno : ~ occursIn "/" "transactions").
  { intros Hocc. apply includes_true_iff in Hocc. discriminate. }
  destruct (getSubdirectory_first_segment "transactions" Hno) as [Hone Hmore].
  split; [exact Hone | exact (Hmore "history")].
Defined.

(** X8: the subdirectory is undefined exactly for a path without '/';
    since the selection test compares the two subdirectories, an item whose
    href has no '/' is selected on every path that has none either, and on
    no other path. *)
Theorem getSubdirectory_undefined_iff (pathname : string) :
  (getSubdirectory pathname = None <-> ~ occursIn "/" pathname)
  /\ forall item,
       ~ occursIn "/" (href item) ->
       (isSelected pathname item = true <-> ~ occursIn "/" pathname).
Proof.
  assert (Hnone : forall p, getSubdirectory p = None <-> ~ occursIn "/" p).
  { intros p. unfold getSubdirectory. split.
    - intros Hlookup Hocc.
      destruct (split_slash p Hocc) as (piece & next & pieces & Hsplit).
      by rewrite Hsplit in Hlookup.
    - intros Hno. by rewrite split_no_slash. }
  split; [apply Hnone |]. intros item Hitem. unfold isSelected.
  apply Hnone in Hitem. rewrite Hitem, bool_decide_eq_true. apply Hnone.
Qed.

Lemma getSubdirectory_undefined_iff_witness :
  isSelected "home"
    {| label := "Settings"; href := "settings"; icon := None;
       badge := false |} = true.
Proof.
  assert (Hno : forall s, JS.includes s "/" = false -> ~ occursIn "/" s).
  { intros s Hs Hocc. apply includes_true_iff in Hocc. congruence. }
  apply (proj2 (getSubdirectory_undefined_iff "home")
           {| label := "Settings"; href := "settings"; icon := None;
              badge := false |});
    apply Hno; reflexivity.
Defined.

(** X9: when the history route and the queue route lie in the same
    subdirectory, rewriting a link from history to queue does not change
    which item the link leads to: on the page the link points at, the item
    of the link is the selected one. *)
Theorem link_target_selects_its_item (routes : TransactionRoutes)
    (queued recovery : bool) (item : NavItem) :
  getSubdirectory (history routes) = getSubdirectory (queue routes) ->
  getSubdirectory (getRoute routes queued recovery (href item))
  = getSubdirectory (href item)
  /\ isSelected (getRoute routes queued recovery (href item)) item = true.
Proof.
  intros Hsame.
  assert (Hsub :
    getSubdirectory (getRoute routes queued recovery (href item))
    = getSubdirectory (href item)).
  { unfold getRoute.
    destruct (String.eqb_spec (href item) (history routes)) as [-> | Hne];
      [| done].
    by destruct queued, recovery. }
  split; [done |]. unfold isSelected. by rewrite Hsub, bool_decide_eq_true.
Qed.

Lemma link_target_selects_its_item_witness :
  isSelected "/transactions/queue"
    {| label := "Transactions"; href := "/transactions/history";
       icon := Some "TransactionIcon"; badge := false |} = true.
Proof.
  apply (link_target_selects_its_item
           {| history := "/transactions/history";
              queue := "/transactions/queue" |}
           true false
           {| label := "Transactions"; href := "/transactions/history";
              icon := Some "TransactionIcon"; badge := false |}).
  reflexivity.
Defined.

End NavigationSelection.

Section NavigationBadge.

Import Navigation.

Lemma setSetupBadge_hrefs (setup : string) (b : bool) (navItems : list NavItem) :
  href <$> setSetupBadge setup b navItems = href <$> navItems.
Proof.
  induction navItems as [|item rest IH]; [done |]. cbn [setSetupBadge].
  destruct (href item =? setup)%string; rewrite !fmap_cons; [done |].
  by rewrite IH.
Qed.

Lemma setSetupBadge_labels (setup : string) (b : bool)
    (navItems : list NavItem) :
  label <$> setSetupBadge setup b navItems = label <$> navItems.
Proof.
  induction navItems as [|item rest IH]; [done |]. cbn [setSetupBadge].
  destruct (href item =? setup)%string; rewrite !fmap_cons; [done |].
  by rewrite IH.
Qed.

Lemma setSetupBadge_icons (setup : string) (b : bool)
    (navItems : list NavItem) :
  icon <$> setSetupBadge setup b navItems = icon <$> navItems.
Proof.
  induction navItems as [|item rest IH]; [done |]. cbn [setSetupBadge].
  destruct (href item =? setup)%string; rewrite !fmap_cons; [done |].
  by rewrite IH.
Qed.

(** The first item with the setup href gets the badge. *)
Lemma setSetupBadge_lookup_first (setup : string) (b : bool)
    (navItems : list NavItem) (i : nat) (item : NavItem) :
  firstWithHref setup navItems i item ->
  setSetupBadge setup b navItems !! i = Some (itemWithBadge b item).
Proof.
  unfold firstWithHref. revert i.
  induction navItems as [|first rest IH]; intros i (Hi & Hhref & Hbefore);
    [done |].
  cbn [setSetupBadge].
  destruct (String.eqb_spec (href first) setup) as [Heq | Hne].
  - destruct i as [|i].
    + simpl in Hi. by injection Hi as ->.
    + exfalso. by apply (Hbefore 0%nat first); [lia | |].
  - destruct i as [|i].
    + simpl in Hi. injection Hi as ->. done.
    + simpl. apply IH. split; [done |]. split; [done |].
      intros j earlier Hj Hearlier. apply (Hbefore (S j) earlier); [lia | done].
Qed.

(** Every other item, a later one with the setup href included, is left. *)
Lemma setSetupBadge_lookup_rest (setup : string) (b : bool)
    (navItems : list NavItem) (i : nat) (item : NavItem) :
  navItems !! i = Some item ->
  href item <> setup \/ precededByHref setup navItems i ->
  setSetupBadge setup b navItems !! i = Some item.
Proof.
  unfold precededByHref. revert i.
  induction navItems as [|first rest IH]; intros i Hi Hrest; [done |].
  cbn [setSetupBadge].
  destruct (String.eqb_spec (href first) setup) as [Heq | Hne].
  - destruct i as [|i]; [| done].
    simpl in Hi. injection Hi as ->.
    destruct Hrest as [Hne | (j & earlier & Hj & _)]; [done | lia].
  - destruct i as [|i]; [done |]. simpl. apply IH; [done |].
    destruct Hrest as [Hitem | (j & earlier & Hj & Hearlier & Hhref)];
      [by left | right].
    destruct j as [|j].
    + simpl in Hearlier. injection Hearlier as ->. done.
    + exists j, earlier. split; [lia | done].
Qed.

Lemma setSetupBadge_absent (setup : string) (b : bool)
    (navItems : list NavItem) :
  setup ∉ href <$> navItems -> setSetupBadge setup b navItems = navItems.
Proof.
  induction navItems as [|item rest IH]; intros Habsent; [done |].
  rewrite fmap_cons, not_elem_of_cons in Habsent. simpl.
  destruct (String.eqb_spec (href item) setup) as [Heq | Hne].
  - by destruct Habsent.
  - rewrite IH; [done | tauto].
Qed.

(** With pairwise distinct hrefs, an item with the setup href is the first
    one. *)
Lemma firstWithHref_NoDup (setup : string) (navItems : list NavItem)
    (i : nat) (item : NavItem) :
  NoDup (href <$> navItems) ->
  navItems !! i = Some item ->
  href item = setup ->
  firstWithHref setup navItems i item.
Proof.
  intros Hnodup Hi Hhref. split; [done |]. split; [done |].
  intros j earlier Hj Hearlier Hsame.
  assert (Hij : i = j); [| lia].
  apply (NoDup_lookup (href <$> navItems) i j setup Hnodup).
  - by rewrite list_lookup_fmap, Hi; simpl; rewrite Hhref.
  - by rewrite list_lookup_fmap, Hearlier; simpl; rewrite Hsame.
Qed.

(** X10: when every item has its own href, the list item rendered for the
    settings route shows a badge exactly when the Safe's implementation is
    OUTDATED and the item has an icon: the badge is handed to the icon, so
    an item with an icon shows it for OUTDATED only (not for UP_TO_DATE or
    UNKNOWN, whatever badge the table held before the render), and an item
    without icon shows none. *)
Theorem render_settings_badge {Tx R : Type} (routes : TransactionRoutes)
    (setup currentPathname : string) (state : ImplementationVersionState)
    (page : option (list Tx)) (recoveryQueue : list R)
    (navItems : list NavItem) (i : nat) (item : NavItem) :
  NoDup (href <$> navItems) ->
  navItems !! i = Some item ->
  href item = setup ->
  exists rendered,
    (render routes setup currentPathname state page recoveryQueue navItems).2
      !! i = Some rendered
    /\ key rendered = setup
    /\ (showsBadge rendered = true
        <-> state = OUTDATED /\ is_Some (icon item))
    /\ (forall shown,
          itemIcon rendered = Some shown ->
          icon item = Some (iconElement shown)
          /\ (iconBadge shown = true <-> state = OUTDATED))
    /\ (icon item = None -> itemIcon rendered = None).
Proof.
  intros Hnodup Hi Hhref.
  pose proof (firstWithHref_NoDup _ _ _ _ Hnodup Hi Hhref) as Hfirst.
  unfold render, updateBadge; cbn [snd].
  rewrite list_lookup_fmap.
  rewrite (setSetupBadge_lookup_first _ (bool_decide (state = OUTDATED)) _ _ _
             Hfirst).
  eexists. split; [reflexivity |]. unfold showsBadge; cbn.
  split; [done |]. destruct (icon item) as [element|]; cbn.
  - rewrite bool_decide_eq_true. split; [| split; [| done]].
    + split; [by eauto | tauto].
    + intros shown [= <-]. cbn. by rewrite bool_decide_eq_true.
  - split; [| done]. split; [done |]. by intros [_ [? ?]].
Qed.

Lemma render_settings_badge_witness :
  exists rendered,
    (render
       {| history := "/transactions/history";
          queue := "/transactions/queue" |}
       "/settings/setup" "/home" OUTDATED (Some ["tx"]) ([] : list string)
       [ {| label := "Home"; href := "/home"; icon := Some "HomeIcon";
            badge := false |};
         {| label := "Settings"; href := "/settings/setup";
            icon := Some "SettingsIcon"; badge := false |} ]).2 !! 1%nat
    = Some rendered
    /\ showsBadge rendered = true.
Proof.
  destruct (render_settings_badge
              {| history := "/transactions/history";
                 queue := "/transactions/queue" |}
              "/settings/setup" "/home" OUTDATED (Some ["tx"])
              ([] : list string)
              [ {| label := "Home"; href := "/home"; icon := Some "HomeIcon";
                   badge := false |};
                {| label := "Settings"; href := "/settings/setup";
                   icon := Some "SettingsIcon"; badge := false |} ]
              1%nat
              {| label := "Settings"; href := "/settings/setup";
                 icon := Some "SettingsIcon"; badge := false |})
    as (rendered & Hlookup & _ & Hbadge & _).
  - apply (bool_decide_unpack _). vm_compute. exact I.
  - reflexivity.
  - reflexivity.
  - exists rendered. split; [exact Hlookup |].
    apply Hbadge. split; [reflexivity | by eexists].
Defined.

Lemma linkTargets_hrefs {Tx R : Type} (routes : TransactionRoutes)
    (page : option (list Tx)) (recoveryQueue : list R)
    (navItems : list NavItem) :
  linkTargets routes page recoveryQueue navItems
  = getRoute routes (hasQueuedTxs page) (hasRecoveryTxs recoveryQueue)
      <$> (href <$> navItems).
Proof. unfold linkTargets. by rewrite <- list_fmap_compose. Qed.

(** X11: the badge update changes nothing but the badge of the first item
    with the setup href.  That item gets the badge of the state and keeps
    its label, href and icon; every other item is left as it is, whether
    its href is another one or it comes after an item with the setup href;
    so the table keeps its hrefs, labels, icons and order, the link targets
    are the same as without the update, and a table without an item for
    the setup href is left unchanged. *)
Theorem updateBadge_leaves_the_rest {Tx R : Type} (setup : string)
    (state : ImplementationVersionState) (navItems : list NavItem) :
  (forall i item,
     firstWithHref setup navItems i item ->
     updateBadge setup state navItems !! i
     = Some (itemWithBadge (bool_decide (state = OUTDATED)) item))
  /\ (forall i item,
        navItems !! i = Some item ->
        href item <> setup \/ precededByHref setup navItems i ->
        updateBadge setup state navItems !! i = Some item)
  /\ href <$> updateBadge setup state navItems = href <$> navItems
  /\ label <$> updateBadge setup state navItems = label <$> navItems
  /\ icon <$> updateBadge setup state navItems = icon <$> navItems
  /\ (forall routes (page : option (list Tx)) (recoveryQueue : list R),
        linkTargets routes page recoveryQueue
          (updateBadge setup state navItems)
        = linkTargets routes page recoveryQueue navItems)
  /\ (setup ∉ href <$> navItems ->
      updateBadge setup state navItems = navItems).
Proof.
  unfold updateBadge.
  split; [intros i item; apply setSetupBadge_lookup_first |].
  split; [intros i item; apply setSetupBadge_lookup_rest |].
  split; [apply setSetupBadge_hrefs |].
  split; [apply setSetupBadge_labels |].
  split; [apply setSetupBadge_icons |].
  split; [| apply setSetupBadge_absent].
  intros routes page recoveryQueue.
  by rewrite !linkTargets_hrefs, setSetupBadge_hrefs.
Qed.

Lemma updateBadge_leaves_the_rest_witness :
  let home := {| label := "Home"; href := "/home"; icon := Some "HomeIcon";
                 badge := false |} in
  let settings := {| label := "Settings"; href := "/settings/setup";
                     icon := Some "SettingsIcon"; badge := false |} in
  let again := {| label := "Setup"; href := "/settings/setup"; icon := None;
                  badge := false |} in
  updateBadge "/settings/setup" OUTDATED [home; settings; again] !! 0%nat
  = Some home
  /\ updateBadge "/settings/setup" OUTDATED [home; settings; again] !! 1%nat
     = Some (itemWithBadge true settings)
  /\ updateBadge "/settings/setup" OUTDATED [home; settings; again] !! 2%nat
     = Some again.
Proof.
  cbv zeta.
  destruct (updateBadge_leaves_the_rest (Tx := string) (R := string)
              "/settings/setup" OUTDATED
              [ {| label := "Home"; href := "/home"; icon := Some "HomeIcon";
                   badge := false |};
                {| label := "Settings"; href := "/settings/setup";
                   icon := Some "SettingsIcon"; badge := false |};
                {| label := "Setup"; href := "/settings/setup"; icon := None;
                   badge := false |} ])
    as (Hfirst & Hrest & _).
  split; [| split].
  - apply Hrest; [reflexivity | left; discriminate].
  - apply Hfirst. split; [reflexivity |]. split; [reflexivity |].
    intros [|[|j]] earlier Hj Hearlier; [| lia | lia].
    injection Hearlier as <-. discriminate.
  - apply Hrest; [reflexivity |]. right.
    eexists 1%nat, _. split; [lia |]. split; reflexivity.
Defined.

(** X12: the navigation table is shared between renders and updated in
    place, and the last render wins: after a render for one state and a
    render for another, the table is as if only the second had happened. *)
Theorem updateBadge_last_render_wins (setup : string)
    (first second : ImplementationVersionState) (navItems : list NavItem) :
  updateBadge setup second (updateBadge setup first navItems)
  = updateBadge setup second navItems.
Proof.
  unfold updateBadge.
  generalize (bool_decide (first = OUTDATED)) as b1.
  generalize (bool_decide (second = OUTDATED)) as b2. intros b2 b1.
  induction navItems as [|item rest IH]; [done |]. simpl.
  destruct (String.eqb_spec (href item) setup) as [Heq | Hne]; simpl.
  - by rewrite (proj2 (String.eqb_eq _ _) Heq).
  - by rewrite (proj2 (String.eqb_neq _ _) Hne), IH.
Qed.

End NavigationBadge.

(* ===================================================================== *)
(** * ReviewOwner: confirmation *)
(* ===================================================================== *)

Section ReviewOwnerSubmit.

Import ReviewOwner.

(** X13: on confirmation an address-book entry is recorded exactly when the
    new owner has a name, an empty name included; the entry is for the
    Safe's chain and the new owner's address, there is at most one, and it
    is dispatched before any analytics event. *)
Theorem addAddressBookEntry_iff_named (safe : SafeInfo) (params : Params) :
  (forall chain addr ownerName,
     UpsertAddressBookEntry chain addr ownerName
       ∈ addAddressBookEntryAndSubmit safe params
     <-> chain = chainId safe
         /\ addr = address (newOwner params)
         /\ name (newOwner params) = Some ownerName)
  /\ (forall ownerName,
        name (newOwner params) = Some ownerName ->
        addAddressBookEntryAndSubmit safe params !! 0%nat
        = Some (UpsertAddressBookEntry (chainId safe)
                  (address (newOwner params)) ownerName))
  /\ (name (newOwner params) = None ->
      List.length (addAddressBookEntryAndSubmit safe params) = 3%nat).
Proof.
  unfold addAddressBookEntryAndSubmit.
  destruct (name (newOwner params)) as [ownerName|]; simpl.
  - split; [| split; [by intros ? [= <-] | done]].
    intros chain addr nm. rewrite !elem_of_cons, elem_of_nil. split.
    + intros [[= -> -> ->] | [? | [? | [? | []]]]]; done.
    + intros (-> & -> & [= ->]). by left.
  - split; [| done]. intros chain addr nm.
    rewrite !elem_of_cons, elem_of_nil. split.
    + intros [? | [? | [? | []]]]; done.
    + by intros (_ & _ & ?).
Qed.

Lemma addAddressBookEntry_iff_named_witness :
  addAddressBookEntryAndSubmit
    {| chainId := "1"; safeThreshold := 1; owners := ["0xa1"] |}
    {| newOwner := {| address := "0xb2"; name := Some "" |};
       removedOwner := None; threshold := 2 |} !! 0%nat
  = Some (UpsertAddressBookEntry "1" "0xb2" "").
Proof.
  apply (addAddressBookEntry_iff_named
           {| chainId := "1"; safeThreshold := 1; owners := ["0xa1"] |}
           {| newOwner := {| address := "0xb2"; name := Some "" |};
              removedOwner := None; threshold := 2 |}).
  reflexivity.
Defined.

Lemma TrackCreate_elem_of (safe : SafeInfo) (params : Params)
    (kind : TxType) :
  TrackCreate kind ∈ addAddressBookEntryAndSubmit safe params
  <-> kind = if bool_decide (is_Some (removedOwner params)) then owner_swap
             else owner_add.
Proof.
  unfold addAddressBookEntryAndSubmit.
  destruct (name (newOwner params)); cbn [app];
    rewrite !elem_of_cons, elem_of_nil; split.
  - intros [? | [? | [? | [[= ->] | []]]]]; done.
  - intros ->. by do 3 right; left.
  - intros [? | [? | [[= ->] | []]]]; done.
  - intros ->. by do 2 right; left.
Qed.

(** X14: what the effect builds, what the confirmation tracks and what the
    review shows agree on the kind of change: a swap-owner transaction is
    built exactly when the creation event is labelled owner_swap, which is
    exactly when the previous-owner panel is shown and the owner count is
    left as it is; otherwise an add-owner transaction is built, the label
    is owner_add and the owner count shown is one more. *)
Theorem swap_or_add_consistent {SafeTransaction Error : Type}
    (sender : TxSender SafeTransaction Error) (safe : SafeInfo)
    (params : Params) :
  ((exists args, (buildTx sender params).1 = CreateSwapOwnerTx args)
   <-> TrackCreate owner_swap ∈ addAddressBookEntryAndSubmit safe params)
  /\ (TrackCreate owner_swap ∈ addAddressBookEntryAndSubmit safe params
      <-> is_Some (previousOwner (review safe params)))
  /\ (is_Some (previousOwner (review safe params))
      <-> shownOwnerCount (review safe params) = List.length (owners safe))
  /\ ((exists args, (buildTx sender params).1 = CreateAddOwnerTx args)
      <-> TrackCreate owner_add ∈ addAddressBookEntryAndSubmit safe params)
  /\ (TrackCreate owner_add ∈ addAddressBookEntryAndSubmit safe params
      <-> shownOwnerCount (review safe params)
          = S (List.length (owners safe))).
Proof.
  rewrite !TrackCreate_elem_of. unfold buildTx, review.
  cbn [previousOwner shownOwnerCount].
  destruct (removedOwner params) as [removed|]; cbn [fst].
  - rewrite bool_decide_eq_true_2 by eauto.
    split; [split; eauto |]. split; [split; eauto |].
    split; [split; [intros _; lia | eauto] |].
    split; [split; [by intros [? ?] | done] |].
    split; [done | lia].
  - rewrite bool_decide_eq_false_2 by (by intros [? ?]).
    split; [split; [by intros [? ?] | done] |].
    split; [split; [done | by intros [? ?]] |].
    split; [split; [by intros [? ?] | lia] |].
    split; [split; eauto |].
    split; [intros _; lia | done].
Qed.

(** X15: the analytics of a confirmation report the Safe as it is before
    the change: the threshold tracked is the Safe's current threshold and
    the owner count tracked is the current number of owners, whereas the
    review shows the threshold of the parameters. *)
Theorem tracking_reports_current_safe (safe : SafeInfo) (params : Params) :
  (forall t,
     TrackSetupThreshold t ∈ addAddressBookEntryAndSubmit safe params
     <-> t = safeThreshold safe)
  /\ (forall n,
        TrackSetupOwners n ∈ addAddressBookEntryAndSubmit safe params
        <-> n = List.length (owners safe))
  /\ shownThreshold (review safe params) = threshold params.
Proof.
  unfold addAddressBookEntryAndSubmit.
  destruct (name (newOwner params)); simpl;
    (split; [| split; [| done]]); intros x;
    rewrite !elem_of_cons, elem_of_nil; split;
    try (intros ->; by eauto 10);
    intros H; repeat (destruct H as [H | H]; try done); by injection H.
Qed.

End ReviewOwnerSubmit.

(* ===================================================================== *)
(** * AddressBookInput: dialog, open-list button and empty inputs *)
(* ===================================================================== *)

Section AddressBookInputInteractions.

Import AddressBookInput.

Lemma append_assoc (s t u : string) : (s ++ t) ++ u = s ++ t ++ u.
Proof.
  induction s as [|c s IH]; [done |]. by rewrite !append_String, IH.
Qed.

Lemma toLowerCase_append (s t : string) :
  JS.toLowerCase (s ++ t) = JS.toLowerCase s ++ JS.toLowerCase t.
Proof.
  induction s as [|c s IH]; [done |].
  rewrite append_String. cbn [JS.toLowerCase]. by rewrite append_String, IH.
Qed.

Lemma addressBookEntries_empty : addressBookEntries ∅ = [].
Proof. unfold addressBookEntries. by rewrite map_to_list_empty. Qed.

Lemma addressBookEntries_nil_iff (addressBook : gmap string string) :
  addressBookEntries addressBook = [] <-> addressBook = ∅.
Proof.
  unfold addressBookEntries. rewrite <- map_to_list_empty_iff. split.
  - apply fmap_nil_inv.
  - by intros ->.
Qed.

(** Without canAdd a single interaction leaves the entry dialog closed. *)
Lemma interact_keeps_dialog_closed (props : Props) (i : Interaction)
    (st : State) :
  JS.truthy_opt_bool (canAdd props) = false ->
  openAddressBook st = false ->
  openAddressBook (interact props i st) = false.
Proof.
  intros HcanAdd Hclosed. unfold interact. case_bool_decide as Hoffered;
    [| done].
  unfold offered, render in Hoffered. cbn in Hoffered.
  rewrite HcanAdd, Hclosed in Hoffered. cbn in Hoffered.
  rewrite !elem_of_cons, elem_of_app, elem_of_nil in Hoffered.
  destruct Hoffered as [-> | [-> | [Hopen | []]]]; [done | done |].
  destruct (hasVisibleOptions _ _); cbn in Hopen.
  - apply elem_of_cons in Hopen as [-> | Hnil]; [done |].
    by apply elem_of_nil in Hnil.
  - by apply elem_of_nil in Hopen.
Qed.

(** X16: unless the consumer sets canAdd, nothing the component offers can
    open the entry dialog: after any sequence of interactions, with any
    address book and any field value at each of them, the dialog is still
    closed and not rendered. *)
Theorem dialog_stays_closed_without_canAdd (props : Props)
    (steps : list Interaction) (st : State) :
  JS.truthy_opt_bool (canAdd props) = false ->
  openAddressBook st = false ->
  openAddressBook (interactAll props steps st) = false
  /\ forall addressBook addressValue,
       entryDialog
         (render props addressBook addressValue (interactAll props steps st))
       = None.
Proof.
  intros HcanAdd Hclosed.
  assert (Hfinal : openAddressBook (interactAll props steps st) = false).
  { unfold interactAll. revert st Hclosed.
    induction steps as [|i steps IH]; intros st Hclosed; [done |].
    cbn [foldl]. apply IH. by apply interact_keeps_dialog_closed. }
  split; [done |]. intros addressBook addressValue.
  unfold render; simpl. by rewrite Hfinal.
Qed.

Lemma dialog_stays_closed_without_canAdd_witness :
  openAddressBook
    (interactAll {| fieldName := "recipient"; canAdd := None |}
       [ {| atAddressBook := {[ "0x1a" := "bob" ]};
            atAddressValue := Some "0x";
            triggered := handleOpenAutocomplete |};
         {| atAddressBook := {[ "0x1a" := "bob" ]};
            atAddressValue := Some "0x";
            triggered := setOpenAddressBookTrue |} ]
       initialState)
  = false.
Proof.
  apply (dialog_stays_closed_without_canAdd
           {| fieldName := "recipient"; canAdd := None |}
           [ {| atAddressBook := {[ "0x1a" := "bob" ]};
                atAddressValue := Some "0x";
                triggered := handleOpenAutocomplete |};
             {| atAddressBook := {[ "0x1a" := "bob" ]};
                atAddressValue := Some "0x";
                triggered := setOpenAddressBookTrue |} ]
           initialState);
    reflexivity.
Defined.

(** X17: whenever the open-list button is offered, the list it opens is
    not empty: an entry whose address contains the typed text is also kept
    by the suggestion filter, for every normalisation that works character
    by character (as lower-casing does). *)
Theorem open_list_offered_has_suggestions
    (normalize : string -> string) (props : Props)
    (addressBook : gmap string string) (typed : string) (st : State) :
  (forall s t, normalize (s ++ t) = normalize s ++ normalize t) ->
  onOpenListClick (render props addressBook (Some typed) st)
  = Some handleOpenAutocomplete ->
  suggestions normalize addressBook typed <> [].
Proof.
  intros Hmorphism Hoffered. unfold render in Hoffered; cbn in Hoffered.
  destruct (hasVisibleOptions _ _) eqn:Hvisible; [| done].
  apply hasVisibleOptions_true_iff in Hvisible as (entry & Hin & Hincludes).
  apply includes_true_iff in Hincludes as (before & after & Hlabel).
  assert (Hsuggested : entry ∈ suggestions normalize addressBook typed).
  { unfold suggestions, abFilterOptions.
    apply elem_of_createFilterOptions. split; [done |].
    apply includes_true_iff. unfold stringify. rewrite Hlabel.
    exists (normalize (name entry ++ " " ++ before)), (normalize after).
    by rewrite <- !Hmorphism, !append_assoc. }
  intros Hempty. rewrite Hempty in Hsuggested.
  by apply elem_of_nil in Hsuggested.
Qed.

Lemma open_list_offered_has_suggestions_witness :
  suggestions JS.toLowerCase {[ "0x1A" := "Bob" ]} "x1A" <> [].
Proof.
  apply (open_list_offered_has_suggestions JS.toLowerCase
           {| fieldName := "recipient"; canAdd := None |}
           {[ "0x1A" := "Bob" ]} "x1A" initialState).
  - exact toLowerCase_append.
  - unfold render; cbn. rewrite addressBookEntries_singleton. reflexivity.
Defined.

(** X18: empty inputs.  With an empty address book there are no options,
    no suggestions for any text and no open-list button.  With an empty
    typed text (kept empty by the normalisation) every entry is suggested,
    and the open-list button is offered exactly when the address book has
    an entry. *)
Theorem empty_book_and_empty_text (normalize : string -> string)
    (props : Props) (addressBook : gmap string string)
    (addressValue : option string) (inputValue : string) (st : State) :
  (options (render props ∅ addressValue st) = []
   /\ suggestions normalize ∅ inputValue = []
   /\ onOpenListClick (render props ∅ addressValue st) = None)
  /\ (normalize "" = "" ->
      suggestions normalize addressBook "" = addressBookEntries addressBook)
  /\ (onOpenListClick (render props addressBook (Some "") st)
        = Some handleOpenAutocomplete
      <-> addressBook <> ∅).
Proof.
  split; [| split].
  - unfold render, suggestions, abFilterOptions, MUI.createFilterOptions.
    cbn. rewrite addressBookEntries_empty. cbn.
    by destruct (JS.truthy_string (normalize inputValue)).
  - intros Hempty.
    unfold suggestions, abFilterOptions, MUI.createFilterOptions.
    by rewrite Hempty.
  - unfold render; cbn. rewrite <- addressBookEntries_nil_iff.
    destruct (hasVisibleOptions _ _) eqn:Hvisible.
    + split; [intros _ | done].
      apply hasVisibleOptions_true_iff in Hvisible as (entry & Hin & _).
      intros Hnil. rewrite Hnil in Hin. by apply elem_of_nil in Hin.
    + split; [done |]. intros Hentries.
      destruct (addressBookEntries addressBook) as [|entry entries]
        eqn:Hbook; [done |].
      assert (Hyes : hasVisibleOptions (entry :: entries) (Some "") = true).
      { apply hasVisibleOptions_true_iff. exists entry.
        split; [by left |]. apply includes_empty. }
      congruence.
Qed.

Lemma empty_book_and_empty_text_witness :
  suggestions JS.toLowerCase {[ "0x1a" := "bob" ]} ""
  = addressBookEntries {[ "0x1a" := "bob" ]}.
Proof.
  apply (empty_book_and_empty_text JS.toLowerCase
           {| fieldName := "recipient"; canAdd := None |}
           {[ "0x1a" := "bob" ]} None "" initialState).
  reflexivity.
Defined.

(** X19: the options list every address of the address book once: no two
    options carry the same address, and there are as many options as the
    book has entries. *)
Theorem options_one_per_address (props : Props)
    (addressBook : gmap string string) (addressValue : option string)
    (st : State) :
  NoDup (label <$> options (render props addressBook addressValue st))
  /\ List.length (options (render props addressBook addressValue st))
     = size addressBook.
Proof.
  unfold render; cbn. unfold addressBookEntries. split.
  - rewrite <- list_fmap_compose.
    rewrite (list_fmap_ext _ fst); [apply NoDup_fst_map_to_list |].
    by intros i [address nm] _.
  - by rewrite length_fmap, length_map_to_list.
Qed.

End AddressBookInputInteractions.

(* ===================================================================== *)
(** * MockMPCCoreKit: the SDK double *)
(* ===================================================================== *)

Section MockMPCCoreKitFacts.

Import SocialWallet.

(** X20: the double reports LOGGED_IN after inputFactorKey exactly when
    the key is the expected one or it was logged in already; the call
    never touches the user info, the count of session commits or what the
    double was constructed with (the state and the user info after login
    and the expected factor key), and a key that is not the expected one
    leaves the double as it is. *)
Theorem inputFactorKey_logs_in_iff (factorKey : Z) (kit : MockMPCCoreKit) :
  (status (inputFactorKey factorKey kit) = LOGGED_IN
   <-> factorKey = expectedFactorKey kit \/ status kit = LOGGED_IN)
  /\ userInfo (inputFactorKey factorKey kit) = userInfo kit
  /\ commitChangesCalls (inputFactorKey factorKey kit)
     = commitChangesCalls kit
  /\ stateAfterLogin (inputFactorKey factorKey kit) = stateAfterLogin kit
  /\ userInfoAfterLogin (inputFactorKey factorKey kit)
     = userInfoAfterLogin kit
  /\ expectedFactorKey (inputFactorKey factorKey kit) = expectedFactorKey kit
  /\ (factorKey <> expectedFactorKey kit ->
      inputFactorKey factorKey kit = kit).
Proof.
  unfold inputFactorKey.
  destruct (Z.eqb_spec factorKey (expectedFactorKey kit)) as [Heq | Hne];
    simpl; (split; [| done]); tauto.
Qed.

(** X21: a double constructed without an expected factor key expects -1,
    so that no key read from a hex string, which is never negative, logs
    it in: after a login that requires a share, inputFactorKey leaves it as
    it is. *)
Theorem default_double_is_never_recovered
    (userInfoAfterLogin : UserInfo) (factorKey : Z) :
  (0 <= factorKey)%Z ->
  inputFactorKey factorKey
    (loginWithOauth (newMockMPCCoreKit REQUIRED_SHARE userInfoAfterLogin None))
  = loginWithOauth (newMockMPCCoreKit REQUIRED_SHARE userInfoAfterLogin None)
  /\ status
       (inputFactorKey factorKey
          (loginWithOauth
             (newMockMPCCoreKit REQUIRED_SHARE userInfoAfterLogin None)))
     = REQUIRED_SHARE.
Proof.
  intros Hkey. unfold inputFactorKey, newMockMPCCoreKit; simpl.
  destruct (Z.eqb_spec factorKey (-1)) as [Heq | Hne]; [lia | done].
Qed.

Lemma default_double_is_never_recovered_witness :
  status
    (inputFactorKey 255
       (loginWithOauth
          (newMockMPCCoreKit REQUIRED_SHARE
             {| email := "test@test.com"; name := Some "Test" |} None)))
  = REQUIRED_SHARE.
Proof.
  apply (default_double_is_never_recovered
           {| email := "test@test.com"; name := Some "Test" |} 255).
  lia.
Defined.

End MockMPCCoreKitFacts.
